(** * The biogas estimator of [page.tsx] over IEEE 754 binary64

    The calculator of the landing page computes with JavaScript numbers:
    the catalog [FEEDSTOCK] (page.tsx, lines 181-186), the function
    [estimate] (lines 188-218) with its helper [round] (lines 220-223), and
    the [chartData] memo of [BioGazStartupLanding] (lines 384-393), which
    turns a result into the twelve points of the cashflow chart.  Around
    it the page has a few helpers that compute: [cn] (lines 43-45) and the
    class of [Card] (lines 78-89), [moneyUZS] (lines 225-228), the text of
    the payback tile (line 815) and the FAQ accordion (lines 350-367, 395
    and 975-990).

    Numbers are embedded as the binary64 instance of the standard library's
    [SpecFloat], the specification of IEEE 754 arithmetic: every [*], [+]
    and [/] of the source is the correctly rounded operation on
    [spec_float], with [NaN], the infinities and the two zeros.  The
    built-ins [Math.max] and [Math.round], the operator [||] and the
    comparisons are written out after ECMAScript.  The file has four
    parts: the embedding, facts about binary64 arithmetic and about the
    calculator, the sentences of the specification, and properties of the
    rest of the page. *)

From Stdlib Require Import ZArith Bool List String Lia.
From Stdlib Require Import Floats.SpecFloat.
Import ListNotations.

Local Open Scope Z_scope.

(** ** JavaScript numbers *)

Module JS.

Definition prec : Z := 53.
Definition emax : Z := 1024.

Definition number : Type := spec_float.

Definition NaN : number := S754_nan.
Definition Infinity : number := S754_infinity false.
Definition pzero : number := S754_zero false.
Definition nzero : number := S754_zero true.

Definition mul : number -> number -> number := SFmul prec emax.
Definition add : number -> number -> number := SFadd prec emax.
Definition div : number -> number -> number := SFdiv prec emax.
Definition neg : number -> number := SFopp.

(** [a < b], [a <= b], [a > b] and [a === b] on numbers: false as soon as
    one side is [NaN]; the two zeros are equal. *)
Definition lt (a b : number) : bool := SFltb a b.
Definition le (a b : number) : bool := SFleb a b.
Definition gt (a b : number) : bool := SFltb b a.
Definition eq (a b : number) : bool := SFeqb a b.

(** An integer literal, and the integer to number conversion in general:
    the nearest binary64, which is the integer itself up to [2^53]. *)
Definition of_Z (n : Z) : number := binary_normalize prec emax n 0 false.

(** A decimal literal [n / 10^d] such as [0.03] or [1.9], for [n] and
    [10^d] that binary64 holds exactly (so [d <= 22]): a literal denotes
    the binary64 nearest to its decimal value, and the correctly rounded
    quotient of two exact integers is that number.  Beyond this range the
    operands are rounded first and the quotient can miss the literal by a
    unit in the last place. *)
Definition dec (n : Z) (d : nat) : number :=
  div (of_Z n) (of_Z (10 ^ Z.of_nat d)).

(** The value of a number that is an integer; [None] for the other numbers. *)
Definition to_Z (x : number) : option Z :=
  match x with
  | S754_zero _ => Some 0
  | S754_finite s m e =>
      if 0 <=? e then Some (cond_Zopp s (Zpos m * 2 ^ e))
      else if Zpos m mod 2 ^ (- e) =? 0
           then Some (cond_Zopp s (Zpos m / 2 ^ (- e)))
           else None
  | _ => None
  end.

(** The numbers proper: [spec_float] also has finite values whose mantissa
    is not normalised, which no binary64 denotes. *)
Definition valid (x : number) : bool := valid_binary prec emax x.

Definition is_NaN (x : number) : bool :=
  match x with S754_nan => true | _ => false end.

Definition is_finite (x : number) : bool :=
  match x with S754_zero _ | S754_finite _ _ _ => true | _ => false end.

(** [x === Infinity] *)
Definition is_Infinity (x : number) : bool :=
  match x with
  | S754_infinity false => true
  | _ => false
  end.

(** [Math.max(a, b)]: [NaN] if either argument is, and [+0] above [-0]. *)
Definition Math_max (a b : number) : number :=
  match a, b with
  | S754_nan, _ | _, S754_nan => S754_nan
  | S754_zero sa, S754_zero sb => S754_zero (sa && sb)
  | _, _ => if lt a b then b else a
  end.

(** [Math.round(x)]: the integer nearest to [x], a tie going to the one
    closer to [+Infinity], that is [floor (x + 1/2)] computed exactly.  A
    number with a non-negative exponent is an integer already; the sign of a
    zero result is the sign of [x]; [NaN], the zeros and the infinities are
    returned as they are. *)
Definition round_Z (s : bool) (m : positive) (e : Z) : Z :=
  (2 * cond_Zopp s (Zpos m) + 2 ^ (- e)) / 2 ^ (- e + 1).

Definition Math_round (x : number) : number :=
  match x with
  | S754_finite s m e =>
      if 0 <=? e then x
      else binary_normalize prec emax (round_Z s m e) 0 s
  | _ => x
  end.

(** [a || 0] on a number [a]: [NaN] and the two zeros are falsy. *)
Definition or_zero (a : number) : number :=
  match a with
  | S754_nan | S754_zero _ => pzero
  | _ => a
  end.

End JS.

(** ** The calculator *)

Record Feedstock : Type := mkFeedstock {
  key : string;
  label : string;
  factor_m3_per_kg : JS.number
}.

Definition FEEDSTOCK : list Feedstock :=
  [ mkFeedstock "cattle" "Qoramol go‘ngi" (JS.dec 3 2);
    mkFeedstock "poultry" "Parranda go‘ngi" (JS.dec 6 2);
    mkFeedstock "food" "Oziq-ovqat chiqindisi" (JS.dec 9 2);
    mkFeedstock "mixed" "Aralash organik" (JS.dec 5 2) ].

(** [FEEDSTOCK[0]] *)
Definition FEEDSTOCK_0 : Feedstock :=
  hd (mkFeedstock "" "" JS.NaN) FEEDSTOCK.

(** The argument object of [estimate].  A price that the caller leaves out
    is [None]; the destructuring pattern then supplies its default. *)
Record EstimationInput : Type := mkInput {
  feedstockKey : string;
  kgPerDay : JS.number;
  gasPriceUZS : option JS.number;
  electricityPriceUZS : option JS.number
}.

(** The object [estimate] returns; [payback_months] is [None] for [null]. *)
Record EstimationResult : Type := mkResult {
  feedstock : string;
  biogas_m3 : JS.number;
  thermal_kwh : JS.number;
  electric_kwh : JS.number;
  monthly_saving : JS.number;
  capex : JS.number;
  payback_months : option JS.number;
  co2_kg_per_day : JS.number
}.

(** [round(x, d)]: [p = 10 ** d], [Math.round(x * p) / p].  The program
    calls it with [d = 1] and [d = 2], where [10 ** d] is exact. *)
Definition round (x : JS.number) (d : nat) : JS.number :=
  let p := JS.of_Z (10 ^ Z.of_nat d) in
  JS.div (JS.Math_round (JS.mul x p)) p.

(** The locals of [estimate], in the order of the source. *)
Definition find_feedstock (k : string) : Feedstock :=
  match find (fun x => String.eqb (key x) k) FEEDSTOCK with
  | Some x => x
  | None => FEEDSTOCK_0
  end.

Definition gas_price (i : EstimationInput) : JS.number :=
  match gasPriceUZS i with Some p => p | None => JS.of_Z 1800 end.

Definition electricity_price (i : EstimationInput) : JS.number :=
  match electricityPriceUZS i with Some p => p | None => JS.of_Z 450 end.

Definition raw_biogas (i : EstimationInput) : JS.number :=
  JS.mul (JS.Math_max (JS.of_Z 0) (kgPerDay i))
         (factor_m3_per_kg (find_feedstock (feedstockKey i))).

Definition raw_thermal (i : EstimationInput) : JS.number :=
  JS.mul (raw_biogas i) (JS.of_Z 6).

Definition raw_electric (i : EstimationInput) : JS.number :=
  JS.mul (raw_biogas i) (JS.of_Z 2).

Definition raw_monthly_saving (i : EstimationInput) : JS.number :=
  JS.mul
    (JS.add (JS.mul (raw_biogas i) (gas_price i))
            (JS.mul (raw_electric i) (electricity_price i)))
    (JS.of_Z 30).

Definition raw_capex (i : EstimationInput) : JS.number :=
  JS.Math_max (JS.of_Z 12000000) (JS.mul (raw_biogas i) (JS.of_Z 1200000)).

Definition raw_payback (i : EstimationInput) : JS.number :=
  if JS.gt (raw_monthly_saving i) (JS.of_Z 0)
  then JS.div (raw_capex i) (raw_monthly_saving i)
  else JS.Infinity.

Definition raw_co2 (i : EstimationInput) : JS.number :=
  JS.mul (raw_biogas i) (JS.dec 19 1).

Definition estimate (i : EstimationInput) : EstimationResult :=
  {| feedstock := label (find_feedstock (feedstockKey i));
     biogas_m3 := round (raw_biogas i) 2;
     thermal_kwh := round (raw_thermal i) 1;
     electric_kwh := round (raw_electric i) 1;
     monthly_saving := JS.Math_round (raw_monthly_saving i);
     capex := JS.Math_round (raw_capex i);
     payback_months :=
       if JS.is_Infinity (raw_payback i) then None
       else Some (round (raw_payback i) 1);
     co2_kg_per_day := round (raw_co2 i) 1 |}.

(** ** The cashflow chart *)

Record CashflowPoint : Type := mkPoint {
  month : JS.number;
  cum : JS.number
}.

(** The callback of [Array.from({ length: 12 }, (_, i) => ...)], called for
    [i = 0, 1, ...] in order: it adds [m] to the captured variable [cum] and
    emits the point of month [i + 1].  [cashflow n i cum m] is the part of
    the array produced by [n] calls from index [i] on, [cum] being the
    running total before the first of them. *)
Fixpoint cashflow (n i : nat) (cum0 m : JS.number) : list CashflowPoint :=
  match n with
  | O => []
  | S n' =>
      let cum1 := JS.add cum0 m in
      mkPoint (JS.add (JS.of_Z (Z.of_nat i)) (JS.of_Z 1)) (JS.Math_round cum1)
        :: cashflow n' (S i) cum1 m
  end.

(** The body of the [chartData] memo, as a function of [result.capex] and
    [result.monthly_saving]. *)
Definition projector (capex0 monthly0 : JS.number) : list CashflowPoint :=
  let capex := JS.or_zero capex0 in
  let m := JS.or_zero monthly0 in
  let cum0 := JS.neg capex in
  cashflow 12 0 cum0 m.

Definition chartData (result : EstimationResult) : list CashflowPoint :=
  projector (capex result) (monthly_saving result).

(** ** The rest of the page *)

(** *** Class names

    [cn(...a)] is [a.filter(Boolean).join(" ")].  The page calls it with
    strings, with a [className] property that may be missing, and with the
    value of [cond && "classes"]. *)
Inductive ClassValue : Type :=
  | CString (s : string)
  | CBool (b : bool)
  | CUndefined
  | CNull.

(** [Boolean(v)]: the empty string, [false], [undefined] and [null] are
    falsy. *)
Definition Boolean (v : ClassValue) : bool :=
  match v with
  | CString s => negb (String.eqb s "")
  | CBool b => b
  | CUndefined | CNull => false
  end.

(** The string that [join] writes for an element. *)
Definition class_string (v : ClassValue) : string :=
  match v with
  | CString s => s
  | CBool true => "true"
  | CBool false => "false"
  | CUndefined | CNull => ""
  end.

Definition cn (a : list ClassValue) : string :=
  String.concat " " (map class_string (filter Boolean a)).

(** [c && s] for a string [s]. *)
Definition and_class (c : ClassValue) (s : string) : ClassValue :=
  if Boolean c then CString s else c.

(** The [className] that [Card] gives to its [div]. *)
Definition Card_base : string :=
  "rounded-3xl border border-black/5 bg-white/70 backdrop-blur shadow-[0_18px_70px_-40px_rgba(0,0,0,0.35)]".

Definition Card_className (className : ClassValue) : string :=
  cn [CString Card_base; className].

(** *** The FAQ accordion *)

Module Faq.

Record FaqEntry : Type := mkFaq { q : string; a : string }.

Definition FAQ : list FaqEntry :=
  [ mkFaq "Hid bo‘ladimi?"
      "To‘g‘ri yig‘ish va yopiq reaktor bo‘lsa, hid sezilarli kamayadi. Montaj va servis talablari muhim.";
    mkFaq "Qishda ham ishlaydimi?"
      "Ha, lekin haroratni ushlab turish (izolyatsiya/isitish) tizim barqarorligiga ta’sir qiladi.";
    mkFaq "Xavfsizlik qanday ta’minlanadi?"
      "Bosim va oqish nazorati, xavfsizlik klapanlari, muntazam texnik ko‘rik (paketga qarab).";
    mkFaq "O‘g‘it sifatida foydasi bormi?"
      "Digestat organik o‘g‘it sifatida ishlatiladi. Amaliy natija xomashyo va jarayonga bog‘liq." ].

(** The state [faqOpen] is the index of the open entry, [-1] when none is;
    [useState(0)] opens the first entry. *)
Definition faqOpen_0 : Z := 0.

(** [const open = i === faqOpen] *)
Definition is_open (faqOpen : Z) (i : nat) : bool := Z.of_nat i =? faqOpen.

(** The click handler of entry [i]: [setFaqOpen(open ? -1 : i)]. *)
Definition click (faqOpen : Z) (i : nat) : Z :=
  if is_open faqOpen i then -1 else Z.of_nat i.

Definition clicks (faqOpen : Z) (l : list nat) : Z := fold_left click l faqOpen.

(** The answers that [FAQ.map] renders: that of entry [i] when [open]. *)
Fixpoint answers_from (faqOpen : Z) (i : nat) (l : list FaqEntry) :
    list string :=
  match l with
  | [] => []
  | x :: l' =>
      (if is_open faqOpen i then [a x] else []) ++ answers_from faqOpen (S i) l'
  end.

Definition visible_answers (faqOpen : Z) : list string :=
  answers_from faqOpen 0 FAQ.

End Faq.

(** *** Texts of the result tiles *)

(** [moneyUZS(n)]; [format] stands for
    [new Intl.NumberFormat("uz-UZ").format], and [None] for [null] or
    [undefined]. *)
Definition moneyUZS (format : JS.number -> string) (n : option JS.number) :
    string :=
  match n with
  | None => "—"
  | Some x => if JS.is_finite x then format x ++ " so‘m" else "—"
  end.

(** A number in a condition: [NaN] and the zeros are falsy. *)
Definition truthy (x : JS.number) : bool :=
  match x with
  | S754_nan | S754_zero _ => false
  | _ => true
  end.

(** [result.payback_months ? `${result.payback_months} oy` : "—"];
    [show] stands for the conversion of a number to a string. *)
Definition payback_text (show : JS.number -> string) (r : EstimationResult) :
    string :=
  match payback_months r with
  | Some p => if truthy p then show p ++ " oy" else "—"
  | None => "—"
  end.

(** ** Notions used in the statements and proofs *)

(** The number of binary digits of a mantissa, and the exponent that
    binary64 gives to a number of magnitude [2^k]: 53 digits of precision
    above the subnormal range, whose exponent is [-1074]. *)
Definition digits (m : positive) : Z := Zpos (digits2_pos m).

Definition fexp64 (k : Z) : Z := Z.max (k - 53) (-1074).

(** The result of a rounding is a zero, an infinity or a canonical finite
    number, of the sign asked for. *)
Inductive rounded (s : bool) : spec_float -> Prop :=
  | rounded_zero : rounded s (S754_zero s)
  | rounded_infinity : rounded s (S754_infinity s)
  | rounded_finite (m : positive) (e : Z) :
      bounded JS.prec JS.emax m e = true -> rounded s (S754_finite s m e).

Definition has_sign (s : bool) (x : JS.number) : Prop :=
  match x with
  | S754_zero s' | S754_infinity s' | S754_finite s' _ _ => s' = s
  | S754_nan => False
  end.

(** A positive finite number. *)
Definition pos_finite (x : JS.number) : bool :=
  match x with
  | S754_finite false m e => bounded JS.prec JS.emax m e
  | _ => false
  end.

(** An infinity of either sign. *)
Definition is_infinite (x : JS.number) : bool :=
  match x with S754_infinity _ => true | _ => false end.

(** The chart that exact arithmetic gives for whole numbers [a] (capex) and
    [b] (monthly saving): month [k] carries [k * b - a]. *)
Definition exact_cashflow (a b : Z) : list CashflowPoint :=
  map (fun k : nat =>
         mkPoint (JS.of_Z (Z.of_nat k)) (JS.of_Z (Z.of_nat k * b - a)))
      (seq 1 12).

(** Each number of the list is [<] the next one. *)
Fixpoint increasing (l : list JS.number) : bool :=
  match l with
  | x :: (y :: _) as l' => JS.lt x y && increasing l'
  | _ => true
  end.

(** Inputs of the examples: the initial state of the page's form, and
    inputs on which a sentence of the specification is tried. *)
Definition input_cattle_600 : EstimationInput :=
  mkInput "cattle" (JS.of_Z 600) (Some (JS.of_Z 1800)) (Some (JS.of_Z 450)).

Definition input_small_saving : EstimationInput :=
  mkInput "cattle" (JS.of_Z 1) (Some (JS.dec 1 1)) (Some (JS.of_Z 0)).

Definition input_fractional_capex : EstimationInput :=
  mkInput "cattle" (JS.dec 40010001 5) None None.

Definition input_negative_mass : EstimationInput :=
  mkInput "cattle" (JS.of_Z (-100)) None None.

Definition input_zero_mass : EstimationInput :=
  mkInput "food" (JS.of_Z (-5)) (Some (JS.of_Z 1800)) None.

Definition input_huge_mass : EstimationInput :=
  mkInput "cattle" (JS.of_Z (3 * 10 ^ 11)) (Some (JS.dec 1 10))
          (Some (JS.of_Z 0)).

(** The literal [1e-301], the binary64 nearest to [10^-301], by its
    mantissa and exponent: [10^301] is no binary64, so that [JS.dec] does
    not give this number. *)
Definition literal_1e_301 : JS.number :=
  S754_finite false 4825645764048353 (-1052).

Definition input_tiny_price : EstimationInput :=
  mkInput "cattle" (JS.of_Z 1) (Some literal_1e_301) (Some (JS.of_Z 0)).

Definition input_overflow : EstimationInput :=
  mkInput "cattle" (JS.of_Z (10 ^ 308)) (Some (JS.of_Z (10 ^ 10)))
          (Some (JS.of_Z 0)).

Definition input_NaN_mass : EstimationInput :=
  mkInput "cattle" JS.NaN None None.

(** * Facts *)

(** ** Binary64 arithmetic *)

Module Binary64.

(** [pow2_pos k H] adds [H : 0 < 2 ^ k], the side condition of most steps
    on exponents. *)
Ltac pow2_pos k H :=
  assert (H : 0 < 2 ^ k) by (apply Z.pow_pos_nonneg; lia).

(** *** Digits *)

Lemma fexp_eq (k : Z) : fexp JS.prec JS.emax k = fexp64 k.
Proof. reflexivity. Qed.

Lemma digits_log2 (m : positive) : digits m = Z.log2 (Zpos m) + 1.
Proof.
  unfold digits.
  induction m as [p IH | p IH | ]; simpl; try reflexivity.
  - rewrite Pos2Z.inj_succ. 
    destruct p; simpl in *; lia.
  - rewrite Pos2Z.inj_succ.
    destruct p; simpl in *; lia.
Qed.

Lemma digits_pos (m : positive) : 0 < digits m.
Proof. unfold digits. lia. Qed.

Lemma digits_bounds (m : positive) :
  2 ^ (digits m - 1) <= Zpos m < 2 ^ digits m.
Proof.
  rewrite digits_log2.
  replace (Z.log2 (Zpos m) + 1 - 1) with (Z.log2 (Zpos m)) by lia.
  replace (Z.log2 (Zpos m) + 1) with (Z.succ (Z.log2 (Zpos m))) by lia.
  apply Z.log2_spec. lia.
Qed.

Lemma digits_unique (m : positive) (d : Z) :
  2 ^ (d - 1) <= Zpos m < 2 ^ d -> digits m = d.
Proof.
  intros H. rewrite digits_log2.
  assert (0 < d).
  { destruct (Z.lt_ge_cases 0 d) as [Hd | Hd]; [assumption|].
    assert (2 ^ d <= 2 ^ 0) by (apply Z.pow_le_mono_r; lia).
    simpl in *. lia. }
  assert (Z.log2 (Zpos m) = d - 1); [|lia].
  apply Z.log2_unique; [lia|].
  replace (Z.succ (d - 1)) with d by lia. assumption.
Qed.

Lemma digits_le_mono (p q : positive) :
  (p <= q)%positive -> digits p <= digits q.
Proof.
  intros H. rewrite !digits_log2.
  assert (Z.log2 (Zpos p) <= Z.log2 (Zpos q)) by (apply Z.log2_le_mono; lia).
  lia.
Qed.

Lemma digits_div (p q : positive) (n : Z) :
  0 <= n -> Zpos q = Zpos p / 2 ^ n -> digits q = digits p - n.
Proof.
  intros Hn Hq.
  pose proof (digits_bounds p) as [Hlo Hhi].
  pow2_pos n H2n.
  assert (Hge : 2 ^ n <= Zpos p).
  { destruct (Z.lt_ge_cases (Zpos p) (2 ^ n)) as [Hlt | Hge]; [|assumption].
    rewrite Z.div_small in Hq by lia. lia. }
  assert (Hdn : n < digits p).
  { destruct (Z.lt_ge_cases n (digits p)) as [Hlt | Hge']; [assumption|].
    assert (2 ^ digits p <= 2 ^ n) by (apply Z.pow_le_mono_r; lia). lia. }
  apply digits_unique. rewrite Hq. split.
  - apply Z.div_le_lower_bound; [assumption|].
    rewrite <- Z.pow_add_r by lia.
    replace (n + (digits p - n - 1)) with (digits p - 1) by lia. assumption.
  - apply Z.div_lt_upper_bound; [assumption|].
    rewrite <- Z.pow_add_r by lia.
    replace (n + (digits p - n)) with (digits p) by lia. assumption.
Qed.

Lemma digits_mul_pow2 (p q : positive) (n : Z) :
  0 <= n -> Zpos q = Zpos p * 2 ^ n -> digits q = digits p + n.
Proof.
  intros Hn Hq.
  pose proof (digits_bounds p) as [Hlo Hhi].
  pose proof (digits_pos p) as Hd.
  pow2_pos n H2n.
  apply digits_unique. rewrite Hq. split.
  - replace (digits p + n - 1) with (digits p - 1 + n) by lia.
    rewrite Z.pow_add_r by lia. apply Z.mul_le_mono_nonneg_r; lia.
  - rewrite Z.pow_add_r by lia. apply Z.mul_lt_mono_pos_r; lia.
Qed.

(** *** Shifting a mantissa to the right *)

Lemma iter_pos_nat {A : Type} (f : A -> A) (n : positive) (x : A) :
  iter_pos f n x = Nat.iter (Pos.to_nat n) f x.
Proof.
  revert x. induction n as [n IH | n IH | ]; intros x; simpl iter_pos.
  - rewrite !IH, Pos2Nat.inj_xI.
    change (S (2 * Pos.to_nat n)) with (S (Pos.to_nat n + (Pos.to_nat n + 0)))%nat.
    rewrite Nat.add_0_r, Nat.iter_succ_r, Nat.iter_add. reflexivity.
  - rewrite !IH, Pos2Nat.inj_xO.
    change (2 * Pos.to_nat n)%nat with (Pos.to_nat n + (Pos.to_nat n + 0))%nat.
    rewrite Nat.add_0_r, Nat.iter_add. reflexivity.
  - reflexivity.
Qed.

Lemma shr_1_m (r : shr_record) :
  0 <= shr_m r -> shr_m (shr_1 r) = shr_m r / 2.
Proof.
  destruct r as [m r s]. simpl. intros Hm.
  rewrite <- Z.div2_div.
  destruct m as [ | [p | p | ] | p ]; try reflexivity; lia.
Qed.

Lemma shr_iter_m (k : nat) (r : shr_record) :
  0 <= shr_m r ->
  shr_m (Nat.iter k shr_1 r) = shr_m r / 2 ^ Z.of_nat k.
Proof.
  intros Hm. induction k as [ | k IH].
  - simpl. rewrite Z.div_1_r. reflexivity.
  - rewrite Nat2Z.inj_succ, Z.pow_succ_r by lia.
    simpl Nat.iter. rewrite shr_1_m.
    + rewrite IH, Z.div_div by (try apply Z.pow_pos_nonneg; lia).
      f_equal. lia.
    + rewrite IH. apply Z.div_pos; [assumption | apply Z.pow_pos_nonneg; lia].
Qed.

Lemma shr_m_spec (r : shr_record) (e n : Z) :
  0 <= shr_m r ->
  shr_m (fst (shr r e n)) = shr_m r / 2 ^ Z.max 0 n /\
  snd (shr r e n) = e + Z.max 0 n.
Proof.
  intros Hm. destruct n as [ | p | p]; simpl.
  - rewrite Z.div_1_r. split; [reflexivity | lia].
  - rewrite iter_pos_nat, shr_iter_m by assumption.
    rewrite positive_nat_Z. split; reflexivity.
  - rewrite Z.div_1_r. split; [reflexivity | lia].
Qed.

Lemma shr_record_of_loc_m (m : Z) (l : location) :
  shr_m (shr_record_of_loc m l) = m.
Proof. destruct l as [ | [ | | ]]; reflexivity. Qed.

Lemma shr_exact_iter (k : nat) (m : positive) :
  Nat.iter k shr_1 (Build_shr_record (Zpos m * 2 ^ Z.of_nat k) false false)
  = Build_shr_record (Zpos m) false false.
Proof.
  induction k as [ | k IH].
  - simpl. rewrite Pos.mul_1_r. reflexivity.
  - rewrite Nat.iter_succ_r, Nat2Z.inj_succ, Z.pow_succ_r by lia.
    rewrite <- IH. f_equal.
    assert (H : 0 < Zpos m * 2 ^ Z.of_nat k)
      by (apply Z.mul_pos_pos; [lia | apply Z.pow_pos_nonneg; lia]).
    replace (Zpos m * (2 * 2 ^ Z.of_nat k))
      with (2 * (Zpos m * 2 ^ Z.of_nat k)) by ring.
    destruct (Zpos m * 2 ^ Z.of_nat k) as [ | q | q]; try lia. reflexivity.
Qed.

(** *** Canonical mantissas and the rounding of [SpecFloat] *)

Lemma canonical_mantissa_iff (m : positive) (e : Z) :
  canonical_mantissa JS.prec JS.emax m e = true <-> fexp64 (digits m + e) = e.
Proof. unfold canonical_mantissa. rewrite Z.eqb_eq. reflexivity. Qed.

Lemma bounded_iff (m : positive) (e : Z) :
  bounded JS.prec JS.emax m e = true <->
  fexp64 (digits m + e) = e /\ e <= 971.
Proof.
  unfold bounded. rewrite andb_true_iff, canonical_mantissa_iff, Z.leb_le.
  reflexivity.
Qed.

Lemma fexp64_mono (a b : Z) : a <= b -> fexp64 a <= fexp64 b.
Proof. unfold fexp64. lia. Qed.

Lemma shr_fexp_spec (p : positive) (e : Z) (l : location) :
  e <= fexp64 (digits p + e) ->
  snd (shr_fexp JS.prec JS.emax (Zpos p) e l) = fexp64 (digits p + e) /\
  shr_m (fst (shr_fexp JS.prec JS.emax (Zpos p) e l))
    = Zpos p / 2 ^ (fexp64 (digits p + e) - e) /\
  (forall q, shr_m (fst (shr_fexp JS.prec JS.emax (Zpos p) e l)) = Zpos q ->
             fexp64 (digits q + fexp64 (digits p + e)) = fexp64 (digits p + e)).
Proof.
  intros He. unfold shr_fexp. simpl Zdigits2. fold (digits p). rewrite fexp_eq.
  set (n := fexp64 (digits p + e) - e).
  destruct (shr_m_spec (shr_record_of_loc (Zpos p) l) e n) as [Hm Hs].
  { rewrite shr_record_of_loc_m. lia. }
  rewrite shr_record_of_loc_m in Hm.
  assert (Hn : Z.max 0 n = n) by lia. rewrite Hn in Hm, Hs.
  split; [lia|]. split; [assumption|].
  intros q Hq. rewrite Hm in Hq. symmetry in Hq.
  apply digits_div in Hq; [|lia].
  rewrite Hq. f_equal. lia.
Qed.

Lemma shr_fexp_zero (e : Z) (l : location) :
  shr_m (fst (shr_fexp JS.prec JS.emax 0 e l)) = 0.
Proof.
  unfold shr_fexp.
  destruct (shr_m_spec (shr_record_of_loc 0 l) e
              (fexp JS.prec JS.emax (Zdigits2 0 + e) - e)) as [Hm _].
  { rewrite shr_record_of_loc_m. lia. }
  rewrite Hm, shr_record_of_loc_m. apply Z.div_0_l.
  apply Z.pow_nonzero; lia.
Qed.

Lemma round_nearest_even_bounds (m : Z) (l : location) :
  m <= round_nearest_even m l <= m + 1.
Proof.
  destruct l as [ | [ | | ]]; simpl; try lia.
  destruct (Z.even m); lia.
Qed.

Lemma binary_round_aux_rounded (s : bool) (mx : positive) (ex : Z) (lx : location) :
  ex <= fexp64 (digits mx + ex) ->
  rounded s (binary_round_aux JS.prec JS.emax s (Zpos mx) ex lx).
Proof.
  intros He. unfold binary_round_aux.
  destruct (shr_fexp_spec mx ex lx He) as (He1 & Hm1 & Hc1).
  destruct (shr_fexp JS.prec JS.emax (Zpos mx) ex lx) as [r1 e1].
  cbn [fst snd] in He1, Hm1, Hc1.
  pose proof (round_nearest_even_bounds (shr_m r1) (loc_of_shr_record r1)) as Hrne.
  set (m1 := round_nearest_even (shr_m r1) (loc_of_shr_record r1)) in *.
  pow2_pos (fexp64 (digits mx + ex) - ex) H2.
  assert (Hr1 : 0 <= shr_m r1) by (rewrite Hm1; apply Z.div_pos; lia).
  destruct m1 as [ | p1 | p1] eqn:Em1; [ | | lia].
  - pose proof (shr_fexp_zero e1 loc_Exact) as Hz.
    destruct (shr_fexp JS.prec JS.emax 0 e1 loc_Exact) as [r2 e2].
    cbn [fst snd] in Hz. rewrite Hz. constructor.
  - assert (Hpre : e1 <= fexp64 (digits p1 + e1)).
    { destruct (shr_m r1) as [ | q1 | q1] eqn:Eq1; [ | | lia].
      - assert (Hlt : Zpos mx < 2 ^ (fexp64 (digits mx + ex) - ex)).
        { destruct (Z.lt_ge_cases (Zpos mx) (2 ^ (fexp64 (digits mx + ex) - ex)))
            as [Hlt | Hge]; [assumption|].
          assert (1 <= Zpos mx / 2 ^ (fexp64 (digits mx + ex) - ex)).
          { apply Z.div_le_lower_bound; lia. }
          lia. }
        pose proof (digits_bounds mx) as [Hlo _].
        assert (digits mx - 1 < fexp64 (digits mx + ex) - ex).
        { apply (Z.pow_lt_mono_r_iff 2); lia. }
        pose proof (digits_pos p1). unfold fexp64 in *. lia.
      - specialize (Hc1 q1 eq_refl).
        assert (digits q1 <= digits p1) by (apply digits_le_mono; lia).
        rewrite He1, <- Hc1. apply fexp64_mono. lia. }
    destruct (shr_fexp_spec p1 e1 loc_Exact Hpre) as (He2 & Hm2 & Hc2).
    destruct (shr_fexp JS.prec JS.emax (Zpos p1) e1 loc_Exact) as [r2 e2].
    cbn [fst snd] in He2, Hm2, Hc2.
    pow2_pos (fexp64 (digits p1 + e1) - e1) H3.
    assert (Hr2 : 0 <= shr_m r2) by (rewrite Hm2; apply Z.div_pos; lia).
    destruct (shr_m r2) as [ | p2 | p2] eqn:Ep2; [ | | lia].
    + constructor.
    + destruct (Z.leb_spec e2 (JS.emax - JS.prec)) as [Hle | Hgt].
      * constructor. apply bounded_iff. split.
        -- rewrite He2. apply Hc2. reflexivity.
        -- exact Hle.
      * constructor.
Qed.

Lemma digits_mul_lower (p q : positive) :
  digits p + digits q - 1 <= digits (p * q).
Proof.
  pose proof (digits_bounds p) as [Hp _].
  pose proof (digits_bounds q) as [Hq _].
  pose proof (digits_bounds (p * q)) as [_ Hpq].
  pose proof (digits_pos p). pose proof (digits_pos q).
  pose proof (digits_pos (p * q)).
  assert (Hlt : 2 ^ (digits p - 1 + (digits q - 1)) < 2 ^ digits (p * q)).
  { rewrite Z.pow_add_r by lia.
    apply Z.le_lt_trans with (Zpos p * Zpos q); [|exact Hpq].
    apply Z.mul_le_mono_nonneg; try assumption; apply Z.pow_nonneg; lia. }
  apply Z.pow_lt_mono_r_iff in Hlt; lia.
Qed.

Lemma mul_finite_rounded (sx sy : bool) (mx my : positive) (ex ey : Z) :
  bounded JS.prec JS.emax mx ex = true ->
  bounded JS.prec JS.emax my ey = true ->
  rounded (xorb sx sy) (JS.mul (S754_finite sx mx ex) (S754_finite sy my ey)).
Proof.
  intros Hx Hy. apply bounded_iff in Hx, Hy.
  destruct Hx as [Hx Hxe], Hy as [Hy Hye].
  unfold JS.mul, SFmul.
  apply binary_round_aux_rounded.
  pose proof (digits_mul_lower mx my).
  pose proof (digits_pos mx). pose proof (digits_pos my).
  unfold fexp64 in *. lia.
Qed.

Lemma binary_round_aux_canonical (s : bool) (m : positive) (e : Z) :
  bounded JS.prec JS.emax m e = true ->
  binary_round_aux JS.prec JS.emax s (Zpos m) e loc_Exact = S754_finite s m e.
Proof.
  intros Hb. apply bounded_iff in Hb. destruct Hb as [Hc He].
  unfold binary_round_aux, shr_fexp. simpl Zdigits2. fold (digits m).
  rewrite fexp_eq, Hc, Z.sub_diag. cbn [shr shr_record_of_loc].
  cbn [shr_m loc_of_shr_record round_nearest_even Zdigits2]. fold (digits m).
  rewrite fexp_eq, Hc, Z.sub_diag. cbn [shr shr_record_of_loc shr_m].
  apply Z.leb_le in He. change (JS.emax - JS.prec) with 971. rewrite He.
  reflexivity.
Qed.

Lemma iter_xO_pow2 (m d : positive) :
  Zpos (Pos.iter xO m d) = Zpos m * 2 ^ Zpos d.
Proof.
  induction d as [ | d IH] using Pos.peano_ind.
  - simpl. rewrite Pos2Z.inj_xO. change (2 ^ 1) with 2. lia.
  - rewrite Pos.iter_succ, Pos2Z.inj_xO, IH, Pos2Z.inj_succ.
    rewrite Z.pow_succ_r by lia. ring.
Qed.

(** Rounding is exact on every representation [(M, E)] of a number that has
    a canonical one. *)
Lemma binary_round_exact (s : bool) (M m : positive) (E e : Z) :
  bounded JS.prec JS.emax m e = true ->
  Zpos M * 2 ^ (E - Z.min E e) = Zpos m * 2 ^ (e - Z.min E e) ->
  binary_round JS.prec JS.emax s M E = S754_finite s m e.
Proof.
  intros Hb Hv. pose proof Hb as Hb'. apply bounded_iff in Hb'.
  destruct Hb' as [Hc He]. unfold binary_round, shl_align.
  change (Zpos (digits2_pos M)) with (digits M). rewrite fexp_eq.
  destruct (Z.le_gt_cases e E) as [HeE | HEe].
  - (* the mantissa has to be shifted left, or is canonical already *)
    rewrite Z.min_r, Z.sub_diag, Z.pow_0_r, Z.mul_1_r in Hv by lia.
    assert (Hd : digits m = digits M + (E - e))
      by (apply digits_mul_pow2; [lia | symmetry; exact Hv]).
    replace (digits M + E) with (digits m + e) by lia. rewrite Hc.
    destruct (e - E) as [ | d | d] eqn:Ed; try lia.
    + assert (E = e) by lia. subst E.
      rewrite Z.sub_diag, Z.pow_0_r, Z.mul_1_r in Hv.
      injection Hv as ->. apply binary_round_aux_canonical; assumption.
    + assert (Hm : Pos.iter xO M d = m).
      { apply Pos2Z.inj. rewrite iter_xO_pow2, <- Hv. f_equal. f_equal. lia. }
      rewrite Hm. apply binary_round_aux_canonical; assumption.
  - (* the mantissa has to be shifted right: the bits lost are zeros *)
    rewrite Z.min_l, Z.sub_diag, Z.pow_0_r, Z.mul_1_r in Hv by lia.
    assert (Hd : digits M = digits m + (e - E))
      by (apply digits_mul_pow2; [lia | exact Hv]).
    replace (digits M + E) with (digits m + e) by lia. rewrite Hc.
    destruct (e - E) as [ | d | d] eqn:Ed; try lia.
    unfold binary_round_aux, shr_fexp. simpl Zdigits2. fold (digits M).
    rewrite fexp_eq.
    replace (digits M + E) with (digits m + e) by lia. rewrite Hc, Ed.
    assert (Hit : iter_pos shr_1 d (Build_shr_record (Zpos M) false false)
                  = Build_shr_record (Zpos m) false false).
    { rewrite iter_pos_nat, Hv, <- (positive_nat_Z d). apply shr_exact_iter. }
    cbn [shr shr_record_of_loc]. rewrite Hit.
    cbn [shr_m loc_of_shr_record round_nearest_even Zdigits2]. fold (digits m).
    rewrite fexp_eq.
    replace (E + Zpos d) with e by lia. rewrite Hc, Z.sub_diag.
    cbn [shr shr_record_of_loc shr_m].
    apply Z.leb_le in He. change (JS.emax - JS.prec) with 971. rewrite He.
    reflexivity.
Qed.

Lemma shl_align_spec (m : positive) (e t : Z) :
  t <= e ->
  Zpos (fst (shl_align m e t)) = Zpos m * 2 ^ (e - t) /\
  snd (shl_align m e t) = t.
Proof.
  intros Ht. unfold shl_align.
  destruct (t - e) as [ | d | d] eqn:Ed; cbn [fst snd].
  - replace (e - t) with 0 by lia. rewrite Z.pow_0_r. lia.
  - lia.
  - rewrite iter_xO_pow2. replace (e - t) with (Zpos d) by lia. tauto.
Qed.

Lemma shl_align_id (m : positive) (e t : Z) :
  e <= t -> shl_align m e t = (m, e).
Proof.
  intros Ht. unfold shl_align.
  destruct (t - e) as [ | d | d] eqn:Ed; try reflexivity. lia.
Qed.

(** [binary_round] needs no assumption on its argument: it aligns the
    mantissa before it rounds. *)
Lemma binary_round_rounded (s : bool) (M : positive) (E : Z) :
  rounded s (binary_round JS.prec JS.emax s M E).
Proof.
  unfold binary_round.
  change (Zpos (digits2_pos M)) with (digits M). rewrite fexp_eq.
  destruct (Z.le_gt_cases E (fexp64 (digits M + E))) as [Hle | Hgt].
  - rewrite shl_align_id by assumption.
    apply binary_round_aux_rounded. assumption.
  - destruct (shl_align_spec M E (fexp64 (digits M + E))) as [Hm He]; [lia|].
    destruct (shl_align M E (fexp64 (digits M + E))) as [mz ez].
    cbn [fst snd] in Hm, He. subst ez.
    apply binary_round_aux_rounded.
    apply digits_mul_pow2 in Hm; [|lia].
    rewrite Hm. apply Z.eq_le_incl. f_equal. lia.
Qed.

Lemma rounded_valid (s : bool) (x : spec_float) :
  rounded s x -> valid_binary JS.prec JS.emax x = true.
Proof. intros [ | | m e Hb]; simpl; auto. Qed.

Lemma binary_normalize_valid (n e : Z) (s : bool) :
  valid_binary JS.prec JS.emax (binary_normalize JS.prec JS.emax n e s) = true.
Proof.
  destruct n as [ | p | p]; simpl binary_normalize.
  - reflexivity.
  - apply (rounded_valid false), binary_round_rounded.
  - apply (rounded_valid true), binary_round_rounded.
Qed.

(** *** Division *)

(** A quotient below one is rounded in the subnormal range. *)
Lemma binary_round_aux_zero_rounded (s : bool) (ex : Z) (lx : location) :
  ex <= -1074 -> rounded s (binary_round_aux JS.prec JS.emax s 0 ex lx).
Proof.
  intros He. unfold binary_round_aux, shr_fexp.
  cbn [Zdigits2]. rewrite Z.add_0_l, fexp_eq.
  replace (fexp64 ex - ex) with (-1074 - ex) by (unfold fexp64; lia).
  destruct (shr_m_spec (shr_record_of_loc 0 lx) ex (-1074 - ex)) as [Hm Hs].
  { rewrite shr_record_of_loc_m. lia. }
  rewrite shr_record_of_loc_m, Z.div_0_l in Hm
    by (apply Z.pow_nonzero; lia).
  destruct (shr (shr_record_of_loc 0 lx) ex (-1074 - ex)) as [r1 e1].
  cbn [fst snd] in Hm, Hs.
  assert (He1 : e1 = -1074) by lia. clear Hs. subst e1. rewrite Hm.
  pose proof (round_nearest_even_bounds 0 (loc_of_shr_record r1)) as Hrne.
  destruct (round_nearest_even 0 (loc_of_shr_record r1)) as [ | p | p];
    try lia.
  - fold (shr_fexp JS.prec JS.emax 0 (-1074) loc_Exact).
    pose proof (shr_fexp_zero (-1074) loc_Exact) as Hz.
    destruct (shr_fexp JS.prec JS.emax 0 (-1074) loc_Exact) as [r2 e2].
    cbn [fst] in Hz. rewrite Hz. constructor.
  - assert (p = 1%positive) by lia. subst p. vm_compute. constructor.
    reflexivity.
Qed.

Lemma div_finite_rounded (sx sy : bool) (mx my : positive) (ex ey : Z) :
  rounded (xorb sx sy) (JS.div (S754_finite sx mx ex) (S754_finite sy my ey)).
Proof.
  unfold JS.div, SFdiv, SFdiv_core_binary.
  cbn [Zdigits2]. fold (digits mx) (digits my). rewrite fexp_eq.
  remember (digits mx + ex - (digits my + ey)) as D eqn:HD.
  remember (Z.min (fexp64 D) (ex - ey)) as e' eqn:He'.
  remember (ex - ey - e') as sh eqn:Hsh.
  assert (Hsh0 : 0 <= sh) by lia.
  remember (match sh with
            | 0 => Zpos mx
            | Zpos _ => Z.shiftl (Zpos mx) sh
            | Zneg _ => 0
            end) as m' eqn:Hm'.
  assert (Hm : m' = Zpos mx * 2 ^ sh).
  { rewrite Hm'. destruct sh as [ | p | p]; try lia.
    apply Z.shiftl_mul_pow2. lia. }
  clear Hm'.
  destruct (Z.div_eucl m' (Zpos my)) as [q r] eqn:Ediv.
  assert (Hq : q = m' / Zpos my) by (unfold Z.div; rewrite Ediv; reflexivity).
  pow2_pos sh H2.
  pose proof (digits_bounds mx) as [Hxlo Hxhi].
  pose proof (digits_bounds my) as [Hylo Hyhi].
  pose proof (digits_pos mx) as Hdx. pose proof (digits_pos my) as Hdy.
  assert (Hmlo : 2 ^ (digits mx - 1 + sh) <= m').
  { rewrite Hm, Z.pow_add_r by lia. apply Z.mul_le_mono_nonneg_r; lia. }
  assert (Hq0 : 0 <= q) by (rewrite Hq; apply Z.div_pos; lia).
  destruct q as [ | p | p]; try lia.
  - (* the quotient is below one *)
    apply binary_round_aux_zero_rounded.
    assert (Hlt : m' < Zpos my).
    { destruct (Z.lt_ge_cases m' (Zpos my)) as [Hlt | Hge]; [assumption|].
      assert (1 <= m' / Zpos my) by (apply Z.div_le_lower_bound; lia). lia. }
    assert (Hpw : 2 ^ (digits mx - 1 + sh) < 2 ^ digits my) by lia.
    apply Z.pow_lt_mono_r_iff in Hpw; try lia.
    unfold fexp64 in *. lia.
  - apply binary_round_aux_rounded.
    apply Z.le_trans with (fexp64 D); [lia|].
    apply fexp64_mono.
    pose proof (digits_pos p) as Hdp.
    assert (Hge : digits mx + sh - digits my <= digits p).
    { destruct (Z.le_gt_cases (digits mx + sh - digits my) 0) as [Hle | Hgt].
      - lia.
      - pose proof (digits_bounds p) as [_ Hphi].
        assert (Hlow : 2 ^ (digits mx + sh - digits my - 1) < 2 ^ digits p).
        { apply Z.le_lt_trans with (Zpos p); [|exact Hphi].
          rewrite Hq. apply Z.div_le_lower_bound; [lia|].
          apply Z.le_trans
            with (2 ^ digits my * 2 ^ (digits mx + sh - digits my - 1)).
          - apply Z.mul_le_mono_nonneg_r; [apply Z.pow_nonneg; lia | lia].
          - rewrite <- Z.pow_add_r by lia.
            replace (digits my + (digits mx + sh - digits my - 1))
              with (digits mx - 1 + sh) by lia.
            exact Hmlo. }
        apply Z.pow_lt_mono_r_iff in Hlow; lia. }
    lia.
Qed.

(** *** Integers *)

(** An integer of magnitude below [2^53] is a number, exactly. *)
Lemma of_Z_finite (n : Z) :
  n <> 0 -> Z.abs n < 2 ^ 53 ->
  exists m e,
    JS.of_Z n = S754_finite (n <? 0) m e /\
    bounded JS.prec JS.emax m e = true /\
    e <= 0 /\ Zpos m = Z.abs n * 2 ^ (- e).
Proof.
  intros Hn Hlt.
  assert (Hpos : forall (s : bool) (p : positive), Zpos p < 2 ^ 53 ->
            exists m e,
              binary_round JS.prec JS.emax s p 0 = S754_finite s m e /\
              bounded JS.prec JS.emax m e = true /\
              e <= 0 /\ Zpos m = Zpos p * 2 ^ (- e)).
  { intros s p Hp.
    assert (Hd : digits p <= 53).
    { pose proof (digits_bounds p) as [Hlo _].
      assert (digits p - 1 < 53) by (apply (Z.pow_lt_mono_r_iff 2); lia). lia. }
    pose proof (digits_pos p) as Hd0.
    assert (Hm : 0 < Zpos p * 2 ^ (53 - digits p))
      by (apply Z.mul_pos_pos; [lia | apply Z.pow_pos_nonneg; lia]).
    destruct (Zpos p * 2 ^ (53 - digits p)) as [ | m | m] eqn:Em; try lia.
    assert (Hdm : digits m = 53).
    { rewrite (digits_mul_pow2 p m (53 - digits p)); [lia | lia | ].
      symmetry. exact Em. }
    assert (Hb : bounded JS.prec JS.emax m (digits p - 53) = true).
    { apply bounded_iff. rewrite Hdm. unfold fexp64. lia. }
    exists m, (digits p - 53). split; [|split; [exact Hb | split; [lia|]]].
    - apply binary_round_exact; [exact Hb|].
      rewrite Z.min_r by lia. rewrite Z.sub_diag, Z.pow_0_r, Z.mul_1_r.
      rewrite <- Em. f_equal. f_equal. lia.
    - rewrite <- Em. f_equal. f_equal. lia. }
  destruct n as [ | p | p]; [congruence | | ].
  - apply (Hpos false p). exact Hlt.
  - apply (Hpos true p). exact Hlt.
Qed.

(** Conversely, whatever the representation [(M, E)] of a non-zero integer
    [n] below [2^53], rounding it yields [of_Z n]. *)
Lemma binary_round_of_Z (M : positive) (E n : Z) :
  E <= 0 -> n <> 0 -> Z.abs n < 2 ^ 53 ->
  Zpos M = Z.abs n * 2 ^ (- E) ->
  binary_round JS.prec JS.emax (n <? 0) M E = JS.of_Z n.
Proof.
  intros HE Hn Hlt HM.
  destruct (of_Z_finite n Hn Hlt) as (m & e & Hof & Hb & He & Hm).
  rewrite Hof. apply binary_round_exact; [exact Hb|].
  rewrite HM, Hm, <- !Z.mul_assoc, <- !Z.pow_add_r by lia.
  f_equal. f_equal. lia.
Qed.

Lemma of_Z_0 : JS.of_Z 0 = S754_zero false.
Proof. reflexivity. Qed.

Lemma cond_Zopp_ltb (n : Z) : cond_Zopp (n <? 0) (Z.abs n) = n.
Proof. destruct n; reflexivity. Qed.

Lemma add_of_Z (a b : Z) :
  Z.abs a < 2 ^ 53 -> Z.abs b < 2 ^ 53 -> Z.abs (a + b) < 2 ^ 53 ->
  JS.add (JS.of_Z a) (JS.of_Z b) = JS.of_Z (a + b).
Proof.
  intros Ha Hb Hab.
  destruct (Z.eq_dec a 0) as [-> | Ha0].
  { destruct (Z.eq_dec b 0) as [-> | Hb0]; [reflexivity|].
    destruct (of_Z_finite b Hb0 Hb) as (m & e & Hof & _).
    simpl (0 + b). rewrite Hof. reflexivity. }
  destruct (of_Z_finite a Ha0 Ha) as (ma & ea & Hofa & _ & Hea & Hma).
  destruct (Z.eq_dec b 0) as [-> | Hb0].
  { rewrite Z.add_0_r, Hofa. reflexivity. }
  destruct (of_Z_finite b Hb0 Hb) as (mb & eb & Hofb & _ & Heb & Hmb).
  rewrite Hofa, Hofb. unfold JS.add, SFadd.
  set (ez := Z.min ea eb).
  destruct (shl_align_spec ma ea ez) as [Hsa _]; [unfold ez; lia|].
  destruct (shl_align_spec mb eb ez) as [Hsb _]; [unfold ez; lia|].
  rewrite Hsa, Hsb, Hma, Hmb.
  rewrite <- !Z.mul_assoc, <- !Z.pow_add_r by (unfold ez; lia).
  replace (- ea + (ea - ez)) with (- ez) by lia.
  replace (- eb + (eb - ez)) with (- ez) by lia.
  assert (H2 : 0 < 2 ^ (- ez)) by (apply Z.pow_pos_nonneg; unfold ez; lia).
  assert (HS : cond_Zopp (a <? 0) (Z.abs a * 2 ^ (- ez))
               + cond_Zopp (b <? 0) (Z.abs b * 2 ^ (- ez))
               = (a + b) * 2 ^ (- ez)).
  { destruct (Z.ltb_spec a 0), (Z.ltb_spec b 0); simpl cond_Zopp;
      rewrite ?(Z.abs_eq a), ?(Z.abs_neq a), ?(Z.abs_eq b), ?(Z.abs_neq b) by lia;
      ring. }
  rewrite HS.
  destruct (Z.eq_dec (a + b) 0) as [Hz | Hnz].
  { rewrite Hz. reflexivity. }
  assert (Hsg : forall M, Zpos M = Z.abs (a + b) * 2 ^ (- ez) ->
            binary_round JS.prec JS.emax (a + b <? 0) M ez = JS.of_Z (a + b)).
  { intros M HM. apply binary_round_of_Z; try assumption. unfold ez; lia. }
  destruct ((a + b) * 2 ^ (- ez)) as [ | M | M] eqn:EM.
  - nia.
  - assert (0 < a + b) by nia.
    simpl binary_normalize. rewrite <- (Hsg M).
    + destruct (Z.ltb_spec (a + b) 0); [lia | reflexivity].
    + rewrite Z.abs_eq by lia. symmetry. exact EM.
  - assert (a + b < 0) by nia.
    simpl binary_normalize. rewrite <- (Hsg M).
    + destruct (Z.ltb_spec (a + b) 0); [reflexivity | lia].
    + rewrite Z.abs_neq by lia. lia.
Qed.

Lemma neg_of_Z (a : Z) :
  a <> 0 -> Z.abs a < 2 ^ 53 -> JS.neg (JS.of_Z a) = JS.of_Z (- a).
Proof.
  intros Ha0 Ha.
  destruct (of_Z_finite a Ha0 Ha) as (m & e & Hof & Hb & He & Hm).
  rewrite Hof. simpl JS.neg.
  assert (Hv : forall p : positive, Z.abs a = Zpos p ->
            Zpos p * 2 ^ (0 - Z.min 0 e) = Zpos m * 2 ^ (e - Z.min 0 e)).
  { intros p Hp. rewrite Z.min_r, Z.sub_diag, Z.pow_0_r, Z.mul_1_r by lia.
    rewrite Hm, Hp, Z.sub_0_l. reflexivity. }
  destruct a as [ | p | p]; [lia | | ]; symmetry;
    apply binary_round_exact; auto.
Qed.

Lemma add_neg_of_Z (a b : Z) :
  Z.abs a < 2 ^ 53 -> Z.abs b < 2 ^ 53 -> Z.abs (b - a) < 2 ^ 53 ->
  JS.add (JS.neg (JS.of_Z a)) (JS.of_Z b) = JS.of_Z (b - a).
Proof.
  intros Ha Hb Hab.
  destruct (Z.eq_dec a 0) as [-> | Ha0].
  - rewrite Z.sub_0_r. destruct (Z.eq_dec b 0) as [-> | Hb0]; [reflexivity|].
    destruct (of_Z_finite b Hb0 Hb) as (m & e & Hof & _).
    rewrite Hof. reflexivity.
  - rewrite neg_of_Z by assumption.
    rewrite add_of_Z; rewrite ?Z.abs_opp; try assumption.
    + f_equal. lia.
    + replace (- a + b) with (b - a) by lia. assumption.
Qed.

(** [Math.round] leaves an integer as it is. *)
Lemma Math_round_of_Z (n : Z) :
  Z.abs n < 2 ^ 53 -> JS.Math_round (JS.of_Z n) = JS.of_Z n.
Proof.
  intros Hlt.
  destruct (Z.eq_dec n 0) as [-> | Hn0]; [reflexivity|].
  destruct (of_Z_finite n Hn0 Hlt) as (m & e & Hof & Hb & He & Hm).
  rewrite Hof. unfold JS.Math_round.
  destruct (Z.leb_spec 0 e) as [Hge | Hneg]; [reflexivity|].
  assert (Hr : JS.round_Z (n <? 0) m e = n).
  { unfold JS.round_Z. rewrite Hm.
    pow2_pos (- e) H2.
    replace (- e + 1) with (Z.succ (- e)) by lia.
    rewrite Z.pow_succ_r by lia.
    replace (2 * cond_Zopp (n <? 0) (Z.abs n * 2 ^ (- e)) + 2 ^ (- e))
      with ((2 * n + 1) * 2 ^ (- e)).
    - rewrite Z.div_mul_cancel_r by lia.
      replace (2 * n + 1) with (n * 2 + 1) by ring.
      rewrite Z.div_add_l by lia. change (1 / 2) with 0. lia.
    - rewrite <- (cond_Zopp_ltb n) at 1.
      destruct (n <? 0); simpl cond_Zopp; ring. }
  rewrite Hr, <- Hof. destruct n; [congruence | reflexivity | reflexivity].
Qed.

Lemma to_Z_of_Z (n : Z) :
  Z.abs n < 2 ^ 53 -> JS.to_Z (JS.of_Z n) = Some n.
Proof.
  intros Hlt.
  destruct (Z.eq_dec n 0) as [-> | Hn0]; [reflexivity|].
  destruct (of_Z_finite n Hn0 Hlt) as (m & e & Hof & Hb & He & Hm).
  rewrite Hof. unfold JS.to_Z.
  pow2_pos (- e) H2.
  destruct (Z.leb_spec 0 e) as [Hge | Hneg].
  - assert (e = 0) by lia. subst e. simpl in Hm.
    rewrite Z.pow_0_r, Z.mul_1_r, Hm, Z.mul_1_r, cond_Zopp_ltb. reflexivity.
  - rewrite Hm, Z.mod_mul, Z.eqb_refl, Z.div_mul, cond_Zopp_ltb by lia.
    reflexivity.
Qed.

(** A number whose value is the integer [n] is [of_Z n], up to the sign of
    zero. *)
Lemma of_Z_to_Z (x : JS.number) (n : Z) :
  JS.valid x = true -> JS.to_Z x = Some n -> JS.or_zero x = JS.of_Z n.
Proof.
  intros Hv Hx. destruct x as [s | s | | s m e]; try discriminate.
  - injection Hx as <-. reflexivity.
  - simpl JS.or_zero. unfold JS.valid in Hv. simpl in Hv.
    unfold JS.to_Z in Hx.
    assert (Hgoal : forall (p : positive) (k : Z),
              Zpos p * 2 ^ (0 - Z.min 0 e) = Zpos m * 2 ^ (e - Z.min 0 e) ->
              k = cond_Zopp s (Zpos p) ->
              S754_finite s m e = JS.of_Z k).
    { intros p k Hp ->. symmetry.
      destruct s; simpl; apply binary_round_exact; assumption. }
    destruct (Z.leb_spec 0 e) as [Hge | Hneg].
    + injection Hx as <-.
      pow2_pos e H2.
      apply (Hgoal (Z.to_pos (Zpos m * 2 ^ e))).
      * rewrite Z.min_l, !Z.sub_0_r, Z.pow_0_r, Z.mul_1_r, Z2Pos.id by lia.
        reflexivity.
      * rewrite Z2Pos.id by lia. reflexivity.
    + pow2_pos (- e) H2.
      destruct (Z.eqb_spec (Zpos m mod 2 ^ (- e)) 0) as [Hmod | Hmod];
        [|discriminate].
      injection Hx as <-.
      apply Z.div_exact in Hmod; [|lia].
      assert (Hq : 0 < Zpos m / 2 ^ (- e)) by nia.
      apply (Hgoal (Z.to_pos (Zpos m / 2 ^ (- e)))).
      * rewrite Z.min_r, Z.sub_diag, Z.pow_0_r, Z.mul_1_r, Z2Pos.id by lia.
        change (0 - e) with (- e). lia.
      * rewrite Z2Pos.id by lia. reflexivity.
Qed.

(** *** The operations stay within the numbers *)

Lemma valid_finite (s : bool) (m : positive) (e : Z) :
  JS.valid (S754_finite s m e) = bounded JS.prec JS.emax m e.
Proof. reflexivity. Qed.

Lemma of_Z_valid (n : Z) : JS.valid (JS.of_Z n) = true.
Proof. apply binary_normalize_valid. Qed.

Lemma mul_valid (x y : JS.number) :
  JS.valid x = true -> JS.valid y = true -> JS.valid (JS.mul x y) = true.
Proof.
  intros Hx Hy.
  destruct x as [sx | sx | | sx mx ex], y as [sy | sy | | sy my ey];
    try reflexivity.
  apply (rounded_valid (xorb sx sy)), mul_finite_rounded; assumption.
Qed.

Lemma add_valid (x y : JS.number) :
  JS.valid x = true -> JS.valid y = true -> JS.valid (JS.add x y) = true.
Proof.
  intros Hx Hy.
  destruct x as [sx | sx | | sx mx ex], y as [sy | sy | | sy my ey];
    try reflexivity; try assumption;
    try (destruct sx, sy; reflexivity).
  apply binary_normalize_valid.
Qed.

Lemma Math_max_valid (x y : JS.number) :
  JS.valid x = true -> JS.valid y = true -> JS.valid (JS.Math_max x y) = true.
Proof.
  intros Hx Hy. unfold JS.Math_max.
  destruct x as [sx | sx | | sx mx ex], y as [sy | sy | | sy my ey];
    try reflexivity;
    match goal with |- context [if ?c then _ else _] => destruct c end;
    assumption.
Qed.

Lemma Math_round_valid (x : JS.number) :
  JS.valid x = true -> JS.valid (JS.Math_round x) = true.
Proof.
  intros Hx. destruct x as [s | s | | s m e]; try reflexivity.
  unfold JS.Math_round. destruct (0 <=? e); [assumption|].
  apply binary_normalize_valid.
Qed.

Lemma div_valid (x y : JS.number) : JS.valid (JS.div x y) = true.
Proof.
  destruct x as [sx | sx | | sx mx ex], y as [sy | sy | | sy my ey];
    try reflexivity.
  apply (rounded_valid (xorb sx sy)), div_finite_rounded.
Qed.

Create HintDb js_valid discriminated.

#[export] Hint Resolve of_Z_valid mul_valid add_valid div_valid Math_max_valid
  Math_round_valid : js_valid.

(** *** Canonical mantissas, compared *)

Lemma bounded_digits (m : positive) (e : Z) :
  bounded JS.prec JS.emax m e = true ->
  Zpos m < 2 ^ 53 /\ (-1074 < e -> 2 ^ 52 <= Zpos m) /\ -1074 <= e.
Proof.
  intros Hb. apply bounded_iff in Hb. destruct Hb as [Hc _].
  pose proof (digits_bounds m) as [Hlo Hhi].
  pose proof (digits_pos m) as Hd.
  unfold fexp64 in Hc. repeat split.
  - apply Z.lt_le_trans with (2 ^ digits m); [exact Hhi|].
    apply Z.pow_le_mono_r; lia.
  - intros He. assert (digits m = 53) as Hd53 by lia.
    rewrite Hd53 in Hlo. exact Hlo.
  - lia.
Qed.

Lemma of_Z_le_mono (a b : Z) :
  0 < a -> a <= b -> b < 2 ^ 53 -> JS.le (JS.of_Z a) (JS.of_Z b) = true.
Proof.
  intros Ha Hab Hb.
  destruct (of_Z_finite a) as (ma & ea & Hofa & Hba & Hea & Hma); try lia.
  destruct (of_Z_finite b) as (mb & eb & Hofb & Hbb & Heb & Hmb); try lia.
  rewrite Hofa, Hofb.
  destruct (Z.ltb_spec a 0); [lia|]. destruct (Z.ltb_spec b 0); [lia|].
  unfold JS.le, SFleb, SFcompare.
  rewrite Z.abs_eq in Hma, Hmb by lia.
  destruct (bounded_digits ma ea Hba) as (Ha53 & Ha52 & Hamin).
  destruct (bounded_digits mb eb Hbb) as (Hb53 & Hb52 & Hbmin).
  pow2_pos (- ea) H2a.
  destruct (Z.compare_spec ea eb) as [Heq | Hlt | Hgt]; try reflexivity.
  - subst eb. rewrite Pos.compare_cont_spec. simpl.
    assert (HleZ : Zpos ma <= Zpos mb)
      by (rewrite Hma, Hmb; apply Z.mul_le_mono_nonneg_r; lia).
    assert (Hle : (ma <= mb)%positive) by lia.
    apply Pos.compare_le_iff in Hle.
    destruct (Pos.compare ma mb); [reflexivity | reflexivity | congruence].
  - exfalso.
    assert (He : - eb = - ea + (ea - eb)) by lia.
    rewrite He, Z.pow_add_r in Hmb by lia.
    assert (2 ^ 1 <= 2 ^ (ea - eb)) by (apply Z.pow_le_mono_r; lia).
    change (2 ^ 1) with 2 in *.
    specialize (Ha52 ltac:(lia)).
    assert (a * 2 ^ (- ea) <= b * 2 ^ (- ea))
      by (apply Z.mul_le_mono_nonneg_r; lia).
    assert (b * 2 ^ (- ea) * 2 <= b * 2 ^ (- ea) * 2 ^ (ea - eb))
      by (apply Z.mul_le_mono_nonneg_l; nia).
    lia.
Qed.

(** [Math.round] does not take a number below an integer that it is above. *)
Lemma Math_round_ge (c : Z) (x : JS.number) :
  0 < c -> c < 2 ^ 53 -> JS.valid x = true ->
  JS.le (JS.of_Z c) x = true -> JS.le (JS.of_Z c) (JS.Math_round x) = true.
Proof.
  intros Hc0 Hc Hv Hle.
  destruct x as [s | s | | s m e]; try assumption.
  unfold JS.Math_round.
  destruct (Z.leb_spec 0 e) as [Hge | Hneg]; [assumption|].
  destruct (of_Z_finite c) as (mc & ec & Hof & Hbc & Hec & Hmc); try lia.
  rewrite Z.abs_eq in Hmc by lia.
  destruct (Z.ltb_spec c 0); [lia|].
  rewrite Hof in Hle. unfold JS.le, SFleb, SFcompare in Hle.
  destruct s; [discriminate|].
  rewrite valid_finite in Hv.
  destruct (bounded_digits m e Hv) as (Hm53 & Hm52 & Hemin).
  destruct (bounded_digits mc ec Hbc) as (Hc53 & _ & Hcmin).
  pow2_pos (- e) H2e.
  pow2_pos (- ec) H2c.
  assert (Hval : c * 2 ^ (- e) <= Zpos m).
  { destruct (Z.compare_spec ec e) as [Heq | Hlt | Hgt]; try discriminate.
    - subst e. rewrite Pos.compare_cont_spec in Hle. simpl in Hle.
      assert ((mc <= m)%positive).
      { apply Pos.compare_le_iff. intros Hgt. rewrite Hgt in Hle.
        discriminate. }
      lia.
    - specialize (Hm52 ltac:(lia)).
      assert (He : - ec = - e + (e - ec)) by lia.
      rewrite He, Z.pow_add_r in Hmc by lia.
      assert (2 ^ 1 <= 2 ^ (e - ec)) by (apply Z.pow_le_mono_r; lia).
      change (2 ^ 1) with 2 in *.
      assert (c * 2 ^ (- e) * 2 <= c * 2 ^ (- e) * 2 ^ (e - ec))
        by (apply Z.mul_le_mono_nonneg_l; nia).
      lia. }
  assert (H21 : 2 ^ (- e + 1) = 2 * 2 ^ (- e)).
  { replace (- e + 1) with (Z.succ (- e)) by lia. apply Z.pow_succ_r. lia. }
  assert (H2ge : 2 <= 2 ^ (- e)).
  { change 2 with (2 ^ 1) at 1. apply Z.pow_le_mono_r; lia. }
  assert (Hlo : c <= JS.round_Z false m e).
  { unfold JS.round_Z. simpl cond_Zopp. rewrite H21.
    apply Z.div_le_lower_bound; nia. }
  assert (Hhi : JS.round_Z false m e < 2 ^ 53).
  { unfold JS.round_Z. simpl cond_Zopp. rewrite H21.
    apply Z.div_lt_upper_bound; nia. }
  change (JS.le (JS.of_Z c) (JS.of_Z (JS.round_Z false m e)) = true).
  apply of_Z_le_mono; assumption.
Qed.

(** *** Numbers that are not negative *)

Lemma Math_max_0_rounded (x : JS.number) :
  JS.valid x = true -> JS.is_NaN x = false ->
  rounded false (JS.Math_max (JS.of_Z 0) x).
Proof.
  intros Hv Hn. destruct x as [s | [ | ] | | [ | ] m e]; try discriminate;
    try (destruct s); simpl; constructor. exact Hv.
Qed.

Lemma mul_pos_rounded (x : JS.number) (m : positive) (e : Z) :
  rounded false x -> bounded JS.prec JS.emax m e = true ->
  rounded false (JS.mul x (S754_finite false m e)).
Proof.
  intros [ | | mx ex Hb] Hy; try constructor.
  apply (mul_finite_rounded false false); assumption.
Qed.

Lemma Math_max_le (c x : JS.number) :
  JS.is_finite c = true -> JS.is_NaN x = false ->
  JS.le c (JS.Math_max c x) = true.
Proof.
  intros Hc Hx.
  assert (Hrefl : JS.le c c = true).
  { destruct c as [s | s | | s m e]; try discriminate; try reflexivity.
    unfold JS.le, SFleb, SFcompare.
    rewrite Z.compare_refl, Pos.compare_cont_refl. destruct s; reflexivity. }
  unfold JS.Math_max.
  destruct c as [sc | sc | | sc mc ec]; try discriminate;
    destruct x as [sx | sx | | sx mx ex]; try discriminate; try reflexivity;
    match goal with
    | |- context [if JS.lt ?a ?b then _ else _] =>
        destruct (JS.lt a b) eqn:Elt; [|exact Hrefl];
        unfold JS.lt, SFltb in Elt; unfold JS.le, SFleb;
        destruct (SFcompare a b) as [[ | | ] | ]; try discriminate; reflexivity
    end.
Qed.

(** *** [Math.round], signs and whole numbers *)

Lemma rounded_has_sign (s : bool) (x : JS.number) :
  rounded s x -> has_sign s x.
Proof. intros [ | | m e Hb]; reflexivity. Qed.

Lemma round_Z_sign (s : bool) (m : positive) (e : Z) :
  e < 0 ->
  if s then JS.round_Z s m e <= 0 else 0 <= JS.round_Z s m e.
Proof.
  intros He. unfold JS.round_Z.
  pow2_pos (- e) H2.
  assert (H21 : 2 ^ (- e + 1) = 2 * 2 ^ (- e)).
  { replace (- e + 1) with (Z.succ (- e)) by lia. apply Z.pow_succ_r. lia. }
  rewrite H21. destruct s; simpl cond_Zopp.
  - assert (H : (2 * - Zpos m + 2 ^ (- e)) / (2 * 2 ^ (- e)) < 1); [|lia].
    apply Z.div_lt_upper_bound; lia.
  - apply Z.div_pos; lia.
Qed.

(** [Math.round] keeps the sign of a finite number. *)
Lemma Math_round_has_sign (s : bool) (m : positive) (e : Z) :
  has_sign s (JS.Math_round (S754_finite s m e)).
Proof.
  unfold JS.Math_round.
  destruct (Z.leb_spec 0 e) as [Hge | Hneg]; [reflexivity|].
  pose proof (round_Z_sign s m e Hneg) as Hs.
  destruct (JS.round_Z s m e) as [ | p | p]; simpl binary_normalize.
  - reflexivity.
  - destruct s; [lia|]. apply rounded_has_sign, binary_round_rounded.
  - destruct s; [|lia]. apply rounded_has_sign, binary_round_rounded.
Qed.

Lemma has_sign_true_not_gt (x : JS.number) :
  has_sign true x -> JS.gt x (JS.of_Z 0) = false.
Proof. destruct x as [s | s | | s m e]; simpl; intros H; subst; tauto. Qed.

Lemma has_sign_false_not_lt (x : JS.number) :
  has_sign false x -> JS.lt x (JS.of_Z 0) = false.
Proof. destruct x as [s | s | | s m e]; simpl; intros H; subst; tauto. Qed.

Lemma Math_round_gt_0 (x : JS.number) :
  JS.gt (JS.Math_round x) (JS.of_Z 0) = true -> JS.gt x (JS.of_Z 0) = true.
Proof.
  destruct x as [s | s | | [ | ] m e]; try (intros H; exact H).
  - intros H. rewrite has_sign_true_not_gt in H; [discriminate|].
    apply Math_round_has_sign.
  - intros _. reflexivity.
Qed.

Lemma Math_round_lt_0 (x : JS.number) :
  JS.lt (JS.Math_round x) (JS.of_Z 0) = true -> JS.gt x (JS.of_Z 0) = false.
Proof.
  destruct x as [s | [ | ] | | [ | ] m e]; try reflexivity;
    try (intros H; discriminate H).
  intros H. rewrite has_sign_false_not_lt in H; [discriminate|].
  apply Math_round_has_sign.
Qed.

(** [Math.round] returns whole numbers. *)
Lemma Math_round_whole (x : JS.number) :
  JS.valid x = true -> JS.is_finite (JS.Math_round x) = true ->
  exists n, JS.to_Z (JS.Math_round x) = Some n.
Proof.
  intros Hv Hf. destruct x as [s | s | | s m e]; try discriminate.
  - exists 0. reflexivity.
  - unfold JS.Math_round in *.
    destruct (Z.leb_spec 0 e) as [Hge | Hneg].
    + unfold JS.to_Z. apply Z.leb_le in Hge. rewrite Hge. eauto.
    + rewrite valid_finite in Hv.
      destruct (bounded_digits m e Hv) as (Hm53 & _ & _).
      set (n := JS.round_Z s m e) in *.
      assert (Hn : Z.abs n < 2 ^ 53).
      { unfold n, JS.round_Z.
        pow2_pos (- e) H2.
        assert (H2ge : 2 <= 2 ^ (- e)).
        { change 2 with (2 ^ 1) at 1. apply Z.pow_le_mono_r; lia. }
        assert (H21 : 2 ^ (- e + 1) = 2 * 2 ^ (- e)).
        { replace (- e + 1) with (Z.succ (- e)) by lia.
          apply Z.pow_succ_r. lia. }
        rewrite H21. apply Z.abs_lt. split.
        - apply Z.lt_le_trans with (- 2 ^ 52); [lia|].
          apply Z.div_le_lower_bound; [lia|]. destruct s; simpl cond_Zopp; nia.
        - apply Z.div_lt_upper_bound; [lia|]. destruct s; simpl cond_Zopp; nia. }
      exists n. destruct (Z.eq_dec n 0) as [E | E].
      * rewrite E. reflexivity.
      * transitivity (JS.to_Z (JS.of_Z n)); [|apply to_Z_of_Z; exact Hn].
        f_equal. unfold JS.of_Z. destruct n; [congruence | | ]; reflexivity.
Qed.

End Binary64.

(** ** The estimator *)

Module Calc.
Import Binary64.

Lemma mul_pos_finite_rounded (x y : JS.number) :
  rounded false x -> pos_finite y = true -> rounded false (JS.mul x y).
Proof.
  intros Hx Hy. destruct y as [ | | | [ | ] m e]; try discriminate.
  apply mul_pos_rounded; assumption.
Qed.

Lemma rounded_not_NaN (s : bool) (x : JS.number) :
  rounded s x -> JS.is_NaN x = false.
Proof. intros [ | | m e Hb]; reflexivity. Qed.

(** *** The catalog *)

Lemma find_feedstock_In (k : string) : In (find_feedstock k) FEEDSTOCK.
Proof.
  unfold find_feedstock.
  destruct (find (fun x => String.eqb (key x) k) FEEDSTOCK) as [x | ] eqn:E.
  - apply find_some in E. tauto.
  - left. reflexivity.
Qed.

Lemma factor_pos_finite (k : string) :
  pos_finite (factor_m3_per_kg (find_feedstock k)) = true.
Proof.
  assert (H : forallb (fun f => pos_finite (factor_m3_per_kg f)) FEEDSTOCK = true)
    by (vm_compute; reflexivity).
  rewrite forallb_forall in H. apply H, find_feedstock_In.
Qed.

Lemma find_feedstock_unknown (k : string) :
  ~ In k (map key FEEDSTOCK) -> find_feedstock k = FEEDSTOCK_0.
Proof.
  intros Hk. unfold find_feedstock.
  destruct (find (fun x => String.eqb (key x) k) FEEDSTOCK) as [x | ] eqn:E;
    [|reflexivity].
  apply find_some in E. destruct E as [Hin Heq].
  apply String.eqb_eq in Heq. subst k.
  exfalso. apply Hk, in_map, Hin.
Qed.

Lemma find_feedstock_key (f : Feedstock) :
  In f FEEDSTOCK -> find_feedstock (key f) = f.
Proof.
  intros [<- | [<- | [<- | [<- | []]]]]; reflexivity.
Qed.

(** *** The intermediate values of [estimate] *)

Lemma pos_finite_valid (x : JS.number) :
  pos_finite x = true -> JS.valid x = true.
Proof.
  destruct x as [ | | | [ | ] m e]; try discriminate. intros H; exact H.
Qed.

Lemma factor_valid (k : string) :
  JS.valid (factor_m3_per_kg (find_feedstock k)) = true.
Proof. apply pos_finite_valid, factor_pos_finite. Qed.

#[local] Hint Resolve factor_valid : js_valid.

Section ValidInput.

Variable i : EstimationInput.
Hypothesis Hkg : JS.valid (kgPerDay i) = true.

Lemma raw_biogas_valid : JS.valid (raw_biogas i) = true.
Proof. unfold raw_biogas. auto with js_valid. Qed.

Lemma raw_capex_valid : JS.valid (raw_capex i) = true.
Proof. unfold raw_capex. auto using raw_biogas_valid with js_valid. Qed.

Lemma estimate_capex_valid : JS.valid (capex (estimate i)) = true.
Proof. simpl capex. auto using raw_capex_valid with js_valid. Qed.

Section ValidPrices.

Hypothesis Hgas : JS.valid (gas_price i) = true.
Hypothesis Helectricity : JS.valid (electricity_price i) = true.

Lemma raw_monthly_saving_valid : JS.valid (raw_monthly_saving i) = true.
Proof.
  unfold raw_monthly_saving, raw_electric.
  pose proof raw_biogas_valid. auto 6 with js_valid.
Qed.

Lemma estimate_monthly_saving_valid :
  JS.valid (monthly_saving (estimate i)) = true.
Proof. simpl monthly_saving. auto using raw_monthly_saving_valid with js_valid. Qed.

(** [estimate] takes numbers to numbers. *)
Lemma estimate_valid :
  let r := estimate i in
  JS.valid (biogas_m3 r) = true /\ JS.valid (thermal_kwh r) = true /\
  JS.valid (electric_kwh r) = true /\ JS.valid (monthly_saving r) = true /\
  JS.valid (capex r) = true /\ JS.valid (co2_kg_per_day r) = true /\
  (forall p, payback_months r = Some p -> JS.valid p = true).
Proof.
  cbv zeta. repeat split;
    try apply estimate_capex_valid; try apply estimate_monthly_saving_valid;
    try (unfold estimate, round; cbn; apply div_valid).
  intros p. simpl payback_months.
  destruct (JS.is_Infinity (raw_payback i)); [discriminate|].
  intros [= <-]. apply div_valid.
Qed.

End ValidPrices.

Section NumericMass.

Hypothesis Hnum : JS.is_NaN (kgPerDay i) = false.

Lemma raw_biogas_rounded : rounded false (raw_biogas i).
Proof.
  unfold raw_biogas. apply mul_pos_finite_rounded.
  - apply Math_max_0_rounded; assumption.
  - apply factor_pos_finite.
Qed.

(** The capex returned is never below the floor. *)
Lemma capex_floor : JS.le (JS.of_Z 12000000) (capex (estimate i)) = true.
Proof.
  simpl capex. apply Math_round_ge; try lia.
  - apply raw_capex_valid.
  - unfold raw_capex. apply Math_max_le; [reflexivity|].
    apply (rounded_not_NaN false).
    apply mul_pos_finite_rounded; [|reflexivity].
    apply raw_biogas_rounded.
Qed.

End NumericMass.

End ValidInput.

(** *** A mass that is not positive *)

Lemma Math_max_0_nonpositive (x : JS.number) :
  JS.le x (JS.of_Z 0) = true -> JS.Math_max (JS.of_Z 0) x = JS.pzero.
Proof.
  destruct x as [[ | ] | [ | ] | | [ | ] m e]; try discriminate; reflexivity.
Qed.

Lemma raw_biogas_nonpositive (i : EstimationInput) :
  JS.le (kgPerDay i) (JS.of_Z 0) = true -> raw_biogas i = JS.pzero.
Proof.
  intros Hle. unfold raw_biogas. rewrite Math_max_0_nonpositive by assumption.
  pose proof (factor_pos_finite (feedstockKey i)) as H.
  destruct (factor_m3_per_kg (find_feedstock (feedstockKey i)))
    as [ | | | [ | ] m e]; try discriminate. reflexivity.
Qed.

Lemma mul_pzero_finite (x : JS.number) :
  JS.is_finite x = true -> exists s, JS.mul JS.pzero x = S754_zero s.
Proof.
  destruct x as [s | s | | s m e]; try discriminate; intros _;
    exists s; reflexivity.
Qed.

End Calc.

(** ** The chart *)

Module Chart.
Import Binary64.

Lemma cashflow_length (n i : nat) (c m : JS.number) :
  List.length (cashflow n i c m) = n.
Proof.
  revert i c. induction n as [ | n IH]; intros i c; simpl.
  - reflexivity.
  - rewrite IH. reflexivity.
Qed.

Lemma cashflow_month (n i : nat) (c m : JS.number) :
  map month (cashflow n i c m)
  = map (fun j => JS.add (JS.of_Z (Z.of_nat j)) (JS.of_Z 1)) (seq i n).
Proof.
  revert i c. induction n as [ | n IH]; intros i c.
  - reflexivity.
  - cbn [cashflow map seq month]. rewrite IH. reflexivity.
Qed.

Lemma cashflow_exact (n : nat) :
  forall (i : nat) (c b : Z),
    Z.abs c + Z.of_nat n * Z.abs b < 2 ^ 53 ->
    Z.of_nat (i + n) < 2 ^ 53 ->
    cashflow n i (JS.of_Z c) (JS.of_Z b)
    = map (fun k : nat =>
             mkPoint (JS.of_Z (Z.of_nat (i + k)))
                     (JS.of_Z (c + Z.of_nat k * b)))
          (seq 1 n).
Proof.
  induction n as [ | n IH]; intros i c b Hc Hi.
  - reflexivity.
  - cbn [cashflow seq map].
    assert (Hb : Z.abs b < 2 ^ 53) by lia.
    rewrite (add_of_Z c b), Math_round_of_Z by lia.
    rewrite (add_of_Z (Z.of_nat i) 1) by lia.
    f_equal.
    + f_equal; f_equal; lia.
    + rewrite IH by lia.
      rewrite <- (seq_shift n 1), map_map. apply map_ext. intros k.
      f_equal; f_equal; lia.
Qed.

Lemma or_zero_valid (x : JS.number) :
  JS.valid x = true -> JS.valid (JS.or_zero x) = true.
Proof. destruct x; auto. Qed.

Lemma neg_valid (x : JS.number) :
  JS.valid x = true -> JS.valid (JS.neg x) = true.
Proof. destruct x; auto. Qed.

(** The points of the chart are numbers. *)
Lemma cashflow_valid (n i : nat) (c m : JS.number) :
  JS.valid c = true -> JS.valid m = true ->
  Forall (fun p => JS.valid (month p) = true /\ JS.valid (cum p) = true)
         (cashflow n i c m).
Proof.
  revert i c. induction n as [ | n IH]; intros i c Hc Hm; cbn [cashflow].
  - constructor.
  - constructor; [split | apply IH]; cbn [month cum]; auto with js_valid.
Qed.

Lemma projector_valid (c m : JS.number) :
  JS.valid c = true -> JS.valid m = true ->
  Forall (fun p => JS.valid (month p) = true /\ JS.valid (cum p) = true)
         (projector c m).
Proof.
  intros Hc Hm. unfold projector.
  apply cashflow_valid; auto using or_zero_valid, neg_valid.
Qed.

Lemma or_zero_of_Z (n : Z) :
  Z.abs n < 2 ^ 53 -> JS.or_zero (JS.of_Z n) = JS.of_Z n.
Proof.
  intros Hn. destruct (Z.eq_dec n 0) as [-> | Hn0]; [reflexivity|].
  destruct (of_Z_finite n Hn0 Hn) as (m & e & Hof & _).
  rewrite Hof. reflexivity.
Qed.

(** The chart of whole numbers [a] and [b] of moderate size is exact. *)
Lemma projector_exact (c m : JS.number) (a b : Z) :
  JS.valid c = true -> JS.valid m = true ->
  JS.to_Z c = Some a -> JS.to_Z m = Some b ->
  Z.abs a + 12 * Z.abs b < 2 ^ 53 ->
  projector c m = exact_cashflow a b.
Proof.
  intros Hvc Hvm Hc Hm Hab.
  unfold projector.
  rewrite (of_Z_to_Z c a Hvc Hc), (of_Z_to_Z m b Hvm Hm).
  change (cashflow 12 0 (JS.neg (JS.of_Z a)) (JS.of_Z b))
    with (mkPoint (JS.add (JS.of_Z 0) (JS.of_Z 1))
                  (JS.Math_round (JS.add (JS.neg (JS.of_Z a)) (JS.of_Z b)))
          :: cashflow 11 1 (JS.add (JS.neg (JS.of_Z a)) (JS.of_Z b)) (JS.of_Z b)).
  rewrite add_neg_of_Z, Math_round_of_Z by lia.
  rewrite cashflow_exact by (simpl Z.of_nat; lia).
  unfold exact_cashflow. cbn [seq map].
  repeat (apply (f_equal2 cons); [f_equal; f_equal; lia|]). reflexivity.
Qed.

Lemma exact_cashflow_nth (a b : Z) (k : nat) :
  (1 <= k <= 12)%nat ->
  nth_error (exact_cashflow a b) (k - 1)
  = Some (mkPoint (JS.of_Z (Z.of_nat k)) (JS.of_Z (Z.of_nat k * b - a))).
Proof.
  intros Hk. unfold exact_cashflow.
  rewrite nth_error_map, nth_error_seq.
  destruct (Nat.ltb_spec (k - 1) 12) as [_ | Hge]; [|lia].
  replace (1 + (k - 1))%nat with k by lia. reflexivity.
Qed.

End Chart.

(** * The specification, sentence by sentence *)

Import Binary64 Calc Chart.

Local Open Scope string_scope.

(** ** Sanity of the embedding *)

Example literal_0_03 : JS.dec 3 2 = S754_finite false 8646911284551352 (-58).
Proof. vm_compute. reflexivity. Qed.

Example binary64_sum :
  JS.add (JS.dec 1 1) (JS.dec 2 1) = JS.dec 30000000000000004 17 /\
  JS.add (JS.dec 1 1) (JS.dec 2 1) <> JS.dec 3 1.
Proof. vm_compute. split; [reflexivity | discriminate]. Qed.

Example Math_round_ties :
  JS.Math_round (JS.dec 25 1) = JS.of_Z 3 /\
  JS.Math_round (JS.neg (JS.dec 25 1)) = JS.of_Z (-2) /\
  JS.Math_round (JS.neg (JS.dec 4 1)) = JS.nzero /\
  JS.Math_round (JS.dec 49 2) = JS.pzero.
Proof. vm_compute. repeat split; reflexivity. Qed.

Example Math_max_cases :
  JS.Math_max (JS.of_Z 0) JS.nzero = JS.pzero /\
  JS.Math_max (JS.of_Z 0) JS.NaN = JS.NaN /\
  JS.Math_max (JS.of_Z 0) (JS.of_Z (-7)) = JS.of_Z 0 /\
  JS.Math_max (JS.of_Z 0) (JS.of_Z 7) = JS.of_Z 7.
Proof. vm_compute. repeat split; reflexivity. Qed.

(** ** The estimator *)

(** C1.  On the input [{feedstockKey: "cattle", kgPerDay: 600, gasPriceUZS:
    1800, electricityPriceUZS: 450}] the estimator returns the label of
    cattle manure, 18 m3 of biogas, 108 kWh thermal, 36 kWh electric, a
    monthly saving of 1 458 000, a capex of 21 600 000, a payback of 14.8
    months and 34.2 kg of CO2 a day. *)
Theorem estimate_cattle_600 :
  estimate input_cattle_600
  = {| feedstock := "Qoramol go‘ngi";
       biogas_m3 := JS.of_Z 18;
       thermal_kwh := JS.of_Z 108;
       electric_kwh := JS.of_Z 36;
       monthly_saving := JS.of_Z 1458000;
       capex := JS.of_Z 21600000;
       payback_months := Some (JS.dec 148 1);
       co2_kg_per_day := JS.dec 342 1 |}.
Proof. vm_compute. reflexivity. Qed.

(** C2, as stated, fails.  With 1 kg of cattle manure a day, gas at 0.1 and
    electricity at 0, the saving is 0.09 a month: the [monthly_saving]
    returned is [Math.round(0.09) = 0], which is [<= 0], and yet
    [payback_months] is 133333333.3 and not [null]. *)
Lemma payback_with_zero_saving :
  let r := estimate input_small_saving in
  JS.le (monthly_saving r) (JS.of_Z 0) = true /\
  payback_months r = Some (JS.dec 1333333333 1) /\
  ~ (payback_months r = None <-> JS.le (monthly_saving r) (JS.of_Z 0) = true).
Proof.
  vm_compute. split; [reflexivity|]. split; [reflexivity|].
  intros [_ H]. specialize (H eq_refl). discriminate H.
Qed.

(** C2, amended.  The test that decides [payback_months] is made on the
    monthly saving before it is rounded: [payback_months] is [null] exactly
    when that saving is not [> 0] or the quotient [capex / monthly_saving]
    is [Infinity]; otherwise it is the quotient of the two values before
    rounding, rounded to one decimal.  The [monthly_saving] returned is
    tied to it in one direction only: when it is [> 0] so is the saving
    before rounding, and the payback is the rounded quotient unless the
    quotient is [Infinity]; when it is [< 0] the payback is [null].  The
    function is total. *)
Theorem payback_null_iff (i : EstimationInput) :
  let r := estimate i in
  let q := JS.div (raw_capex i) (raw_monthly_saving i) in
  (payback_months r = None <->
   JS.gt (raw_monthly_saving i) (JS.of_Z 0) = false \/ q = JS.Infinity) /\
  (forall p, payback_months r = Some p ->
     JS.gt (raw_monthly_saving i) (JS.of_Z 0) = true /\ p = round q 1) /\
  (JS.gt (monthly_saving r) (JS.of_Z 0) = true ->
     JS.gt (raw_monthly_saving i) (JS.of_Z 0) = true) /\
  (JS.gt (monthly_saving r) (JS.of_Z 0) = true -> q <> JS.Infinity ->
     payback_months r = Some (round q 1)) /\
  (JS.lt (monthly_saving r) (JS.of_Z 0) = true -> payback_months r = None).
Proof.
  cbv zeta. simpl payback_months. simpl monthly_saving. unfold raw_payback.
  assert (Hinf : forall x, JS.is_Infinity x = true <-> x = JS.Infinity).
  { intros [s | [ | ] | | s m e]; simpl; split; intros H;
      try reflexivity; discriminate H. }
  repeat split.
  - destruct (JS.gt (raw_monthly_saving i) (JS.of_Z 0)); [|auto].
    destruct (JS.is_Infinity _) eqn:E; [|discriminate].
    right. apply Hinf, E.
  - intros [H | H].
    + rewrite H. reflexivity.
    + destruct (JS.gt (raw_monthly_saving i) (JS.of_Z 0)); [|reflexivity].
      rewrite H. reflexivity.
  - destruct (JS.gt (raw_monthly_saving i) (JS.of_Z 0)); [reflexivity|].
    simpl in H. discriminate H.
  - destruct (JS.gt (raw_monthly_saving i) (JS.of_Z 0)).
    + destruct (JS.is_Infinity _); congruence.
    + simpl in H. discriminate H.
  - apply Math_round_gt_0.
  - intros H Hq. apply Math_round_gt_0 in H. rewrite H.
    destruct (JS.is_Infinity _) eqn:E; [|reflexivity].
    apply Hinf in E. contradiction.
  - intros H. apply Math_round_lt_0 in H. rewrite H. reflexivity.
Qed.

Lemma payback_null_iff_witness :
  JS.gt (monthly_saving (estimate input_cattle_600)) (JS.of_Z 0) = true /\
  JS.gt (raw_monthly_saving input_cattle_600) (JS.of_Z 0) = true.
Proof.
  split; [vm_compute; reflexivity|].
  apply (payback_null_iff input_cattle_600). vm_compute. reflexivity.
Defined.

(** [literal_1e_301] is the binary64 nearest to [10^-301]: a number of
    full precision, [m * 2^-1052], that lies less than half a unit in the
    last place from it, [|m * 2^-1052 - 10^-301| < 2^-1053].  The quotient
    [JS.dec 1 301], whose divisor is [10^301] rounded, is the binary64 just
    below. *)
Example literal_1e_301_nearest :
  JS.valid literal_1e_301 = true /\
  literal_1e_301 = S754_finite false 4825645764048353 (-1052) /\
  2 ^ 52 <= 4825645764048353 < 2 ^ 53 /\
  2 * Z.abs (4825645764048353 * 10 ^ 301 - 2 ^ 1052) < 10 ^ 301 /\
  JS.dec 1 301 = S754_finite false 4825645764048352 (-1052).
Proof.
  split; [reflexivity|]. split; [reflexivity|].
  split; [split; vm_compute; [discriminate | reflexivity]|].
  split; vm_compute; reflexivity.
Qed.

(** At the edge of the number range the payback that is returned can
    still be infinite or [NaN].  With a gas price of [1e-301] the
    quotient is finite and its product by 10, inside [round], is not; with
    [10^308] kg a day capex and saving are both [Infinity]. *)
Example payback_can_be_infinite :
  payback_months (estimate input_tiny_price) = Some JS.Infinity.
Proof. vm_compute. reflexivity. Qed.

Example payback_can_be_NaN :
  payback_months (estimate input_overflow) = Some JS.NaN.
Proof. vm_compute. reflexivity. Qed.

(** [Math.max(0, NaN)] is [NaN]: a mass that is not a number is not
    clamped, and every numeric field of the result is [NaN]. *)
Example estimate_of_NaN_mass :
  let r := estimate input_NaN_mass in
  biogas_m3 r = JS.NaN /\ monthly_saving r = JS.NaN /\ capex r = JS.NaN /\
  payback_months r = None.
Proof. vm_compute. repeat split; reflexivity. Qed.

(** C4.  When the daily mass is [<= 0] and the two prices are finite
    numbers, the biogas volume returned is 0, and so are the thermal and
    electric energies, the monthly saving (a zero of either sign) and the
    CO2 reduction; the payback is [null].  A negative mass is clamped, not
    rejected. *)
Theorem nonpositive_mass_gives_zero (i : EstimationInput) :
  JS.le (kgPerDay i) (JS.of_Z 0) = true ->
  JS.is_finite (gas_price i) = true ->
  JS.is_finite (electricity_price i) = true ->
  let r := estimate i in
  biogas_m3 r = JS.pzero /\
  thermal_kwh r = JS.pzero /\
  electric_kwh r = JS.pzero /\
  JS.to_Z (monthly_saving r) = Some 0 /\
  JS.eq (monthly_saving r) (JS.of_Z 0) = true /\
  co2_kg_per_day r = JS.pzero /\
  payback_months r = None.
Proof.
  intros Hle Hg He. cbv zeta.
  pose proof (raw_biogas_nonpositive i Hle) as Hb.
  assert (Hm : exists s, raw_monthly_saving i = S754_zero s).
  { unfold raw_monthly_saving, raw_electric. rewrite Hb.
    change (JS.mul JS.pzero (JS.of_Z 2)) with JS.pzero.
    destruct (mul_pzero_finite _ Hg) as [sg ->].
    destruct (mul_pzero_finite _ He) as [se ->].
    destruct sg, se; eexists; reflexivity. }
  destruct Hm as [s Hm].
  unfold estimate, raw_payback, raw_thermal, raw_electric, raw_co2.
  cbn [biogas_m3 thermal_kwh electric_kwh monthly_saving co2_kg_per_day
       payback_months].
  rewrite Hb, Hm.
  repeat split; try reflexivity; destruct s; reflexivity.
Qed.

Lemma nonpositive_mass_gives_zero_witness :
  let r := estimate input_zero_mass in
  biogas_m3 r = JS.pzero /\ payback_months r = None.
Proof.
  destruct (nonpositive_mass_gives_zero input_zero_mass)
    as (H1 & _ & _ & _ & _ & _ & H7); try reflexivity.
  split; assumption.
Defined.

(** C5, as stated, fails in its second half.  With 400.10001 kg of cattle
    manure a day the capex returned is 14 403 600, which is neither the
    maximum taken with the biogas volume returned (12 m3, giving
    14 400 000) nor the maximum taken with the volume before rounding
    (giving 14 403 600.36). *)
Lemma capex_is_rounded :
  let i := input_fractional_capex in
  let r := estimate i in
  capex r = JS.of_Z 14403600 /\
  JS.Math_max (JS.of_Z 12000000) (JS.mul (biogas_m3 r) (JS.of_Z 1200000))
    = JS.of_Z 14400000 /\
  JS.Math_max (JS.of_Z 12000000) (JS.mul (raw_biogas i) (JS.of_Z 1200000))
    = JS.dec 1440360036 2 /\
  capex r <> JS.Math_max (JS.of_Z 12000000)
                         (JS.mul (biogas_m3 r) (JS.of_Z 1200000)) /\
  capex r <> JS.Math_max (JS.of_Z 12000000)
                         (JS.mul (raw_biogas i) (JS.of_Z 1200000)).
Proof. vm_compute. repeat split; try reflexivity; discriminate. Qed.

(** C5, amended.  Whatever the feedstock key and the prices, for every
    daily mass that is a number (not [NaN]) the capex returned is at least
    12 000 000; it is [Math.round] of the maximum of 12 000 000 and
    1 200 000 times the biogas volume before rounding, that volume being
    [Math.max(0, kgPerDay)] times the yield factor. *)
Theorem capex_floor_and_value (i : EstimationInput) :
  JS.valid (kgPerDay i) = true -> JS.is_NaN (kgPerDay i) = false ->
  let r := estimate i in
  JS.le (JS.of_Z 12000000) (capex r) = true /\
  capex r = JS.Math_round
              (JS.Math_max (JS.of_Z 12000000)
                 (JS.mul (JS.mul (JS.Math_max (JS.of_Z 0) (kgPerDay i))
                                 (factor_m3_per_kg
                                    (find_feedstock (feedstockKey i))))
                         (JS.of_Z 1200000))).
Proof.
  intros Hv Hn. split; [apply capex_floor; assumption | reflexivity].
Qed.

Lemma capex_floor_and_value_witness :
  JS.le (JS.of_Z 12000000) (capex (estimate input_zero_mass)) = true.
Proof.
  apply (capex_floor_and_value input_zero_mass); reflexivity.
Defined.

(** C6.  A feedstock key that names no entry of the catalog is resolved to
    the first entry, cattle manure with yield factor 0.03, and nothing is
    raised.  The result is computed with that entry: it carries the label
    of cattle manure, the biogas volume is [Math.max(0, kgPerDay)] times
    0.03 rounded to two decimals, the energies, the CO2 reduction, the
    capex and the monthly saving are the ones derived from this volume, and
    the whole result is the one returned for the key ["cattle"]. *)
Theorem unknown_key_falls_back (k : string) (kg : JS.number)
    (gas electricity : option JS.number) :
  ~ In k (map key FEEDSTOCK) ->
  let i := mkInput k kg gas electricity in
  let r := estimate i in
  let v := JS.mul (JS.Math_max (JS.of_Z 0) kg) (JS.dec 3 2) in
  find_feedstock k = FEEDSTOCK_0 /\
  key FEEDSTOCK_0 = "cattle" /\
  factor_m3_per_kg FEEDSTOCK_0 = JS.dec 3 2 /\
  r = estimate (mkInput "cattle" kg gas electricity) /\
  feedstock r = "Qoramol go‘ngi" /\
  biogas_m3 r = round v 2 /\
  thermal_kwh r = round (JS.mul v (JS.of_Z 6)) 1 /\
  electric_kwh r = round (JS.mul v (JS.of_Z 2)) 1 /\
  co2_kg_per_day r = round (JS.mul v (JS.dec 19 1)) 1 /\
  capex r
  = JS.Math_round
      (JS.Math_max (JS.of_Z 12000000) (JS.mul v (JS.of_Z 1200000))) /\
  monthly_saving r
  = JS.Math_round
      (JS.mul (JS.add (JS.mul v (gas_price i))
                      (JS.mul (JS.mul v (JS.of_Z 2)) (electricity_price i)))
              (JS.of_Z 30)).
Proof.
  intros Hk. cbv zeta. pose proof (find_feedstock_unknown k Hk) as Hf.
  assert (He : estimate (mkInput k kg gas electricity)
               = estimate (mkInput "cattle" kg gas electricity)).
  { unfold estimate, raw_payback, raw_monthly_saving, raw_capex, raw_co2,
      raw_thermal, raw_electric, raw_biogas. cbn [feedstockKey].
    rewrite Hf. reflexivity. }
  split; [exact Hf|]. split; [reflexivity|]. split; [reflexivity|].
  split; [exact He|]. rewrite He. repeat split.
Qed.

Lemma unknown_key_falls_back_witness :
  let r := estimate (mkInput "straw" (JS.of_Z 600) None None) in
  feedstock r = "Qoramol go‘ngi" /\
  biogas_m3 r
  = round (JS.mul (JS.Math_max (JS.of_Z 0) (JS.of_Z 600)) (JS.dec 3 2)) 2.
Proof.
  destruct (unknown_key_falls_back "straw" (JS.of_Z 600) None None)
    as (_ & _ & _ & _ & Hl & Hb & _).
  - simpl. intros [H | [H | [H | [H | []]]]]; discriminate H.
  - split; assumption.
Defined.

(** C7, as stated, fails on a negative mass.  With -100 kg of cattle manure
    a day the biogas volume returned is 0, while the mass times the yield
    factor, rounded to two decimals, is -3. *)
Lemma biogas_of_negative_mass :
  let i := input_negative_mass in
  biogas_m3 (estimate i) = JS.pzero /\
  round (JS.mul (kgPerDay i) (JS.dec 3 2)) 2 = JS.of_Z (-3) /\
  JS.eq (biogas_m3 (estimate i)) (round (JS.mul (kgPerDay i) (JS.dec 3 2)) 2)
    = false.
Proof. vm_compute. repeat split; reflexivity. Qed.

(** C7, amended.  The catalog has exactly the four entries cattle 0.03,
    poultry 0.06, food 0.09 and mixed 0.05, and for a key that names one of
    them the biogas volume returned is [Math.max(0, kgPerDay)] times its
    yield factor, rounded to two decimals by [round]; it is the mass times
    the yield factor, so rounded, when the mass is not below zero. *)
Theorem biogas_volume (f : Feedstock) (kg : JS.number)
    (gas electricity : option JS.number) :
  map (fun x => (key x, factor_m3_per_kg x)) FEEDSTOCK
  = [("cattle", JS.dec 3 2); ("poultry", JS.dec 6 2);
     ("food", JS.dec 9 2); ("mixed", JS.dec 5 2)] /\
  (In f FEEDSTOCK ->
   let r := estimate (mkInput (key f) kg gas electricity) in
   biogas_m3 r
   = round (JS.mul (JS.Math_max (JS.of_Z 0) kg) (factor_m3_per_kg f)) 2 /\
   (JS.le (JS.of_Z 0) kg = true -> kg <> JS.nzero ->
    biogas_m3 r = round (JS.mul kg (factor_m3_per_kg f)) 2)).
Proof.
  split; [reflexivity|]. intros Hf. cbv zeta.
  assert (Hr : biogas_m3 (estimate (mkInput (key f) kg gas electricity))
               = round (JS.mul (JS.Math_max (JS.of_Z 0) kg)
                               (factor_m3_per_kg f)) 2).
  { unfold estimate, raw_biogas. cbn [biogas_m3 feedstockKey kgPerDay].
    rewrite find_feedstock_key by assumption. reflexivity. }
  split; [exact Hr|]. intros Hle Hnz. rewrite Hr.
  replace (JS.Math_max (JS.of_Z 0) kg) with kg; [reflexivity|].
  destruct kg as [[ | ] | [ | ] | | [ | ] m e]; try discriminate;
    try reflexivity.
  exfalso. apply Hnz. reflexivity.
Qed.

Lemma biogas_volume_witness :
  biogas_m3 (estimate (mkInput "poultry" (JS.of_Z 250) None None))
  = round (JS.mul (JS.of_Z 250) (JS.dec 6 2)) 2.
Proof.
  apply (biogas_volume (mkFeedstock "poultry" "Parranda go‘ngi" (JS.dec 6 2))
           (JS.of_Z 250) None None).
  - right. left. reflexivity.
  - reflexivity.
  - discriminate.
Defined.

(** C9.  A price left out of the argument of [estimate] takes its default,
    1800 for gas and 450 for electricity, and the computation uses it.
    With [v] the biogas volume before rounding, the monthly saving returned
    when both prices are left out is [Math.round((v * 1800 + v * 2 * 450)
    * 30)], and the payback is derived from that saving; when one price is
    left out its default stands next to the price that is given; a price
    that is given is used as it is.  In each case the whole result is the
    one returned when the default is passed.  For 600 kg of cattle manure
    and no prices the saving is 1 458 000. *)
Theorem price_defaults (k : string) (kg gas electricity : JS.number) :
  let v := JS.mul (JS.Math_max (JS.of_Z 0) kg)
                  (factor_m3_per_kg (find_feedstock k)) in
  let saving g e :=
    JS.mul (JS.add (JS.mul v g) (JS.mul (JS.mul v (JS.of_Z 2)) e))
           (JS.of_Z 30) in
  let cost :=
    JS.Math_max (JS.of_Z 12000000) (JS.mul v (JS.of_Z 1200000)) in
  let payback g e :=
    let q := if JS.gt (saving g e) (JS.of_Z 0)
             then JS.div cost (saving g e) else JS.Infinity in
    if JS.is_Infinity q then None else Some (round q 1) in
  (estimate (mkInput k kg None None)
   = estimate (mkInput k kg (Some (JS.of_Z 1800)) (Some (JS.of_Z 450))) /\
   estimate (mkInput k kg None (Some electricity))
   = estimate (mkInput k kg (Some (JS.of_Z 1800)) (Some electricity)) /\
   estimate (mkInput k kg (Some gas) None)
   = estimate (mkInput k kg (Some gas) (Some (JS.of_Z 450)))) /\
  (monthly_saving (estimate (mkInput k kg None None))
   = JS.Math_round (saving (JS.of_Z 1800) (JS.of_Z 450)) /\
   monthly_saving (estimate (mkInput k kg None (Some electricity)))
   = JS.Math_round (saving (JS.of_Z 1800) electricity) /\
   monthly_saving (estimate (mkInput k kg (Some gas) None))
   = JS.Math_round (saving gas (JS.of_Z 450)) /\
   monthly_saving (estimate (mkInput k kg (Some gas) (Some electricity)))
   = JS.Math_round (saving gas electricity)) /\
  (payback_months (estimate (mkInput k kg None None))
   = payback (JS.of_Z 1800) (JS.of_Z 450) /\
   payback_months (estimate (mkInput k kg None (Some electricity)))
   = payback (JS.of_Z 1800) electricity /\
   payback_months (estimate (mkInput k kg (Some gas) None))
   = payback gas (JS.of_Z 450) /\
   payback_months (estimate (mkInput k kg (Some gas) (Some electricity)))
   = payback gas electricity) /\
  gas_price (mkInput k kg None None) = JS.of_Z 1800 /\
  electricity_price (mkInput k kg None None) = JS.of_Z 450 /\
  monthly_saving (estimate (mkInput "cattle" (JS.of_Z 600) None None))
  = JS.of_Z 1458000.
Proof.
  cbv zeta. repeat split.
Qed.

(** ** The cashflow chart *)

(** C3, as stated, fails in its last part.  With a capital cost of [2^54]
    and a monthly saving of 1, two whole numbers that binary64 holds
    exactly, every addition of the saving is lost in the rounding of the
    sum: the point of month 12 carries [- 2^54].  The value
    [- 2^54 + 12 * 1] of the claim is a binary64 too, and it is what
    [-capex + 12 * m] evaluates to. *)
Lemma projector_absorbs_savings :
  let capex0 := JS.of_Z (2 ^ 54) in
  let monthly0 := JS.of_Z 1 in
  JS.to_Z capex0 = Some (2 ^ 54) /\ JS.to_Z monthly0 = Some 1 /\
  map (fun p => JS.to_Z (cum p)) (skipn 11 (projector capex0 monthly0))
    = [Some (- 2 ^ 54)] /\
  JS.to_Z (JS.add (JS.neg capex0) (JS.mul (JS.of_Z 12) monthly0))
    = Some (- 2 ^ 54 + 12 * 1) /\
  - 2 ^ 54 <> - 2 ^ 54 + 12 * 1.
Proof. vm_compute. repeat split; try reflexivity. discriminate. Qed.

(** C3, amended.  For every capital cost and monthly saving, of any sign
    and magnitude, the chart has exactly 12 points, whose months are 1 to
    12 in strictly increasing order.  When the two are whole numbers [a]
    and [b] with [|a| + 12 |b| < 2^53], the point of month 12 carries
    [12 * b - a] exactly. *)
Theorem projector_twelve_points (capex0 monthly0 : JS.number) :
  let points := projector capex0 monthly0 in
  List.length points = 12%nat /\
  map month points = map JS.of_Z [1; 2; 3; 4; 5; 6; 7; 8; 9; 10; 11; 12] /\
  increasing (map month points) = true /\
  (forall a b : Z,
     JS.valid capex0 = true -> JS.valid monthly0 = true ->
     JS.to_Z capex0 = Some a -> JS.to_Z monthly0 = Some b ->
     Z.abs a + 12 * Z.abs b < 2 ^ 53 ->
     nth_error points 11 = Some (mkPoint (JS.of_Z 12) (JS.of_Z (12 * b - a)))).
Proof.
  cbv zeta.
  assert (Hm : map month (projector capex0 monthly0)
               = map JS.of_Z [1; 2; 3; 4; 5; 6; 7; 8; 9; 10; 11; 12]).
  { unfold projector. rewrite cashflow_month. vm_compute. reflexivity. }
  split; [apply cashflow_length|]. split; [exact Hm|]. split.
  - rewrite Hm. vm_compute. reflexivity.
  - intros a b Hvc Hvm Hc Hb Hab.
    rewrite (projector_exact capex0 monthly0 a b) by assumption.
    reflexivity.
Qed.

Lemma projector_twelve_points_witness :
  nth_error (projector (JS.of_Z 21600000) (JS.of_Z 1458000)) 11
  = Some (mkPoint (JS.of_Z 12) (JS.of_Z (12 * 1458000 - 21600000))).
Proof.
  apply (projector_twelve_points (JS.of_Z 21600000) (JS.of_Z 1458000));
    try (vm_compute; reflexivity).
Defined.

(** C10, as stated, fails on large amounts.  With [3 * 10^11] kg of cattle
    manure a day, gas at [10^-10] and electricity at 0, the estimator
    returns the whole numbers 10 800 000 000 000 000 (capex) and 27
    (monthly saving).  Above [2^53] an odd whole number is not a binary64:
    the first point of the chart carries -10 799 999 999 999 972 and not
    -10 800 000 000 000 000 + 27, and the twelfth carries
    -10 799 999 999 999 664 and not -10 800 000 000 000 000 + 12 * 27,
    which is a binary64. *)
Lemma chart_of_huge_mass :
  let r := estimate input_huge_mass in
  JS.to_Z (capex r) = Some 10800000000000000 /\
  JS.to_Z (monthly_saving r) = Some 27 /\
  map (fun p => JS.to_Z (cum p)) (firstn 1 (chartData r))
    = [Some (- 10799999999999972)] /\
  - 10799999999999972 <> - 10800000000000000 + 1 * 27 /\
  map (fun p => JS.to_Z (cum p)) (skipn 11 (chartData r))
    = [Some (- 10799999999999664)] /\
  JS.to_Z (JS.of_Z (- 10800000000000000 + 12 * 27))
    = Some (- 10800000000000000 + 12 * 27) /\
  - 10799999999999664 <> - 10800000000000000 + 12 * 27.
Proof. vm_compute. repeat split; try reflexivity; discriminate. Qed.

(** C10, amended.  The capex and the monthly saving that the estimator
    returns are whole numbers whenever they are finite, and when these
    whole numbers [a] and [b] satisfy [|a| + 12 |b| < 2^53], the point of
    every month [k] from 1 to 12 carries [k * b - a] exactly: the rounding
    of each point is the identity. *)
Theorem chartData_exact (i : EstimationInput) :
  JS.valid (kgPerDay i) = true ->
  JS.valid (gas_price i) = true ->
  JS.valid (electricity_price i) = true ->
  let r := estimate i in
  (JS.is_finite (capex r) = true -> exists a, JS.to_Z (capex r) = Some a) /\
  (JS.is_finite (monthly_saving r) = true ->
   exists b, JS.to_Z (monthly_saving r) = Some b) /\
  (forall a b : Z,
     JS.to_Z (capex r) = Some a -> JS.to_Z (monthly_saving r) = Some b ->
     Z.abs a + 12 * Z.abs b < 2 ^ 53 ->
     forall k : nat, (1 <= k <= 12)%nat ->
       nth_error (chartData r) (k - 1)
       = Some (mkPoint (JS.of_Z (Z.of_nat k))
                       (JS.of_Z (Z.of_nat k * b - a)))).
Proof.
  intros Hk Hg He. cbv zeta.
  pose proof (estimate_capex_valid i Hk) as Hvc.
  pose proof (estimate_monthly_saving_valid i Hk Hg He) as Hvm.
  split; [|split].
  - apply Math_round_whole, raw_capex_valid, Hk.
  - apply Math_round_whole, raw_monthly_saving_valid; assumption.
  - intros a b Ha Hb Hab k Hk12. unfold chartData.
    rewrite (projector_exact _ _ a b) by assumption.
    apply exact_cashflow_nth, Hk12.
Qed.

Lemma chartData_exact_witness :
  nth_error (chartData (estimate input_cattle_600)) (12 - 1)
  = Some (mkPoint (JS.of_Z (Z.of_nat 12))
                  (JS.of_Z (Z.of_nat 12 * 1458000 - 21600000))).
Proof.
  apply (chartData_exact input_cattle_600);
    try (vm_compute; reflexivity).
  lia.
Defined.

(** * The rest of the page

    Properties of the helpers around the calculator: the class names of
    [cn] and [Card], the FAQ accordion, [round] on whole numbers, the sign
    of the saving, the texts of the result tiles and the chart. *)

(** ** Class names *)

Module Classes.

Lemma append_nil_r (s : string) : s ++ "" = s.
Proof. induction s as [ | c s IH]; simpl; [reflexivity | rewrite IH; reflexivity]. Qed.

Lemma append_assoc (s t u : string) : (s ++ t) ++ u = s ++ (t ++ u).
Proof. induction s as [ | c s IH]; simpl; [reflexivity | rewrite IH; reflexivity]. Qed.

Lemma length_append (s t : string) :
  String.length (s ++ t) = (String.length s + String.length t)%nat.
Proof. induction s as [ | c s IH]; simpl; [reflexivity | rewrite IH; reflexivity]. Qed.

Lemma append_empty (s t : string) : s ++ t = "" -> s = "".
Proof. destruct s; [reflexivity | discriminate]. Qed.

Lemma concat_cons (sep x : string) (l : list string) :
  l <> [] -> String.concat sep (x :: l) = x ++ sep ++ String.concat sep l.
Proof. destruct l; [congruence | reflexivity]. Qed.

Lemma concat_app (sep : string) (l1 l2 : list string) :
  l1 <> [] -> l2 <> [] ->
  String.concat sep (l1 ++ l2)
  = String.concat sep l1 ++ sep ++ String.concat sep l2.
Proof.
  intros H1 H2. induction l1 as [ | x l1 IH]; [congruence|].
  destruct l1 as [ | y l1].
  - simpl app. apply concat_cons. assumption.
  - change ((x :: y :: l1) ++ l2)%list with (x :: ((y :: l1) ++ l2)%list).
    rewrite concat_cons by discriminate.
    rewrite IH by discriminate.
    rewrite (concat_cons sep x (y :: l1)) by discriminate.
    rewrite !append_assoc. reflexivity.
Qed.

Lemma concat_empty (sep : string) (l : list string) :
  Forall (fun s => s <> "") l -> String.concat sep l = "" -> l = [].
Proof.
  intros Hl Hc. destruct l as [ | x l]; [reflexivity|]. exfalso.
  inversion Hl as [ | ? ? Hx _]; subst. apply Hx.
  destruct l; [exact Hc | apply append_empty in Hc; exact Hc].
Qed.

(** The strings that [cn] joins. *)
Lemma Boolean_class_string (v : ClassValue) :
  Boolean v = true -> class_string v <> "".
Proof.
  destruct v as [s | [ | ] | | ]; simpl; try discriminate.
  destruct (String.eqb_spec s ""); [discriminate | auto].
Qed.

Lemma classes_nonempty (l : list ClassValue) :
  Forall (fun s => s <> "") (map class_string (filter Boolean l)).
Proof.
  induction l as [ | v l IH]; simpl; [constructor|].
  destruct (Boolean v) eqn:E; [|exact IH].
  constructor; [apply Boolean_class_string, E | exact IH].
Qed.

Lemma cn_empty (l : list ClassValue) :
  cn l = "" <-> filter Boolean l = [].
Proof.
  unfold cn. split.
  - intros H. apply concat_empty in H; [|apply classes_nonempty].
    destruct (filter Boolean l); [reflexivity | discriminate].
  - intros ->. reflexivity.
Qed.

Lemma cn_app (l1 l2 : list ClassValue) :
  cn (l1 ++ l2)
  = if (cn l1 =? "") then cn l2
    else if (cn l2 =? "") then cn l1
    else cn l1 ++ " " ++ cn l2.
Proof.
  destruct (String.eqb_spec (cn l1) "") as [E1 | E1].
  { apply cn_empty in E1. unfold cn. rewrite filter_app, E1. reflexivity. }
  destruct (String.eqb_spec (cn l2) "") as [E2 | E2].
  { apply cn_empty in E2. unfold cn. rewrite filter_app, E2, app_nil_r.
    reflexivity. }
  unfold cn in *. rewrite filter_app, map_app. apply concat_app.
  - intros H. apply E1. rewrite H. reflexivity.
  - intros H. apply E2. rewrite H. reflexivity.
Qed.

Lemma cn_single (s : string) : cn [CString s] = s.
Proof.
  unfold cn. simpl. destruct (String.eqb_spec s ""); simpl; congruence.
Qed.

Lemma cn_cons_string (s : string) (l : list ClassValue) :
  cn (CString s :: l)
  = if (s =? "") then cn l
    else if (cn l =? "") then s
    else s ++ " " ++ cn l.
Proof.
  change (CString s :: l) with ([CString s] ++ l)%list.
  rewrite cn_app, cn_single. reflexivity.
Qed.

Lemma cn_pair (s t : string) :
  s <> "" -> t <> "" -> cn [CString s; CString t] = s ++ " " ++ t.
Proof.
  intros Hs Ht. rewrite cn_cons_string, cn_single.
  destruct (String.eqb_spec s ""); [contradiction|].
  destruct (String.eqb_spec t ""); [contradiction|]. reflexivity.
Qed.

End Classes.
Import Classes.

(** X1.  Class names nest: a [cn(...)] passed as an argument of another
    [cn] gives the same string as the arguments written in one call, as
    when [Card] receives [className={cn("p-6", ...)}]. *)
Theorem cn_flatten (ll : list (list ClassValue)) :
  cn (map (fun l => CString (cn l)) ll) = cn (List.concat ll).
Proof.
  induction ll as [ | l ll IH]; [reflexivity|].
  cbn [map List.concat]. rewrite cn_cons_string, cn_app, IH. reflexivity.
Qed.

(** X2.  [cn] returns the empty string exactly when every argument is
    falsy: [false], [undefined], [null] or the empty string. *)
Theorem cn_empty_iff (l : list ClassValue) :
  cn l = "" <-> forall v, In v l -> Boolean v = false.
Proof.
  rewrite cn_empty. split.
  - intros H v Hv. destruct (Boolean v) eqn:E; [|reflexivity].
    assert (Hin : In v (filter Boolean l)) by (apply filter_In; auto).
    rewrite H in Hin. destruct Hin.
  - intros H. induction l as [ | v l IH]; [reflexivity|].
    simpl. rewrite (H v) by (left; reflexivity).
    apply IH. intros w Hw. apply H. right. exact Hw.
Qed.

Lemma cn_empty_iff_witness : cn [CUndefined; CBool false; CString ""] = "".
Proof.
  apply cn_empty_iff. intros v [<- | [<- | [<- | []]]]; reflexivity.
Defined.

(** X3.  The idiom [cn(base, cond && extra)] for non-empty strings: the
    result is [base], a space and [extra] when [cond] is truthy, and
    [base] alone when it is falsy; the falsy value leaves no trace such
    as ["false"] or a trailing space. *)
Theorem cn_conditional (base extra : string) (cond : ClassValue) :
  base <> "" -> extra <> "" ->
  cn [CString base; and_class cond extra]
  = if Boolean cond then base ++ " " ++ extra else base.
Proof.
  intros Hb He. unfold and_class. destruct (Boolean cond) eqn:E.
  - apply cn_pair; assumption.
  - rewrite cn_cons_string.
    destruct (String.eqb_spec base ""); [contradiction|].
    assert (Hc : cn [cond] = "").
    { apply cn_empty. simpl. rewrite E. reflexivity. }
    rewrite Hc. reflexivity.
Qed.

Lemma cn_conditional_witness :
  cn [CString "text-xs text-black/45 transition";
      and_class (CBool false) "rotate-180"]
  = "text-xs text-black/45 transition".
Proof.
  apply (cn_conditional "text-xs text-black/45 transition" "rotate-180"
           (CBool false)); discriminate.
Defined.

(** X4.  The class of a [Card]: the classes of the component followed by
    those the caller passes, also when the caller builds them with [cn];
    a caller that passes nothing, or only falsy values, gets the classes
    of the component alone. *)
Theorem Card_className_nested (l : list ClassValue) :
  Card_className (CString (cn l)) = cn (CString Card_base :: l) /\
  (cn l = "" -> Card_className (CString (cn l)) = Card_base) /\
  Card_className CUndefined = Card_base.
Proof.
  assert (H : Card_className (CString (cn l)) = cn (CString Card_base :: l)).
  { unfold Card_className.
    rewrite (cn_cons_string Card_base l), (cn_cons_string Card_base).
    rewrite cn_single. reflexivity. }
  split; [exact H|]. split; [|reflexivity].
  intros E. rewrite H, cn_cons_string, E. reflexivity.
Qed.

Lemma Card_className_nested_witness :
  Card_className (CString (cn [CBool false; CNull])) = Card_base.
Proof.
  apply (proj1 (proj2 (Card_className_nested [CBool false; CNull]))).
  reflexivity.
Defined.

Local Close Scope string_scope.

(** ** The FAQ accordion *)

Module Accordion.

Lemma is_open_click_same (s : Z) (i : nat) :
  Faq.is_open (Faq.click s i) i = negb (Faq.is_open s i).
Proof.
  unfold Faq.click. destruct (Faq.is_open s i) eqn:E; simpl.
  - unfold Faq.is_open. apply Z.eqb_neq. lia.
  - unfold Faq.is_open. apply Z.eqb_refl.
Qed.

Lemma is_open_click_other (s : Z) (i j : nat) :
  j <> i -> Faq.is_open (Faq.click s i) j = false.
Proof.
  intros Hj. unfold Faq.click, Faq.is_open.
  destruct (Z.of_nat i =? s); apply Z.eqb_neq; lia.
Qed.

Lemma clicks_snoc (s : Z) (l : list nat) (i : nat) :
  Faq.clicks s (l ++ [i]) = Faq.click (Faq.clicks s l) i.
Proof. unfold Faq.clicks. rewrite fold_left_app. reflexivity. Qed.

Lemma repeat_snoc (i : nat) (r : nat) : repeat i (S r) = (repeat i r ++ [i])%list.
Proof.
  induction r as [ | r IH]; [reflexivity|].
  change (repeat i (S (S r))) with (i :: repeat i (S r)).
  rewrite IH at 1. reflexivity.
Qed.

Lemma answers_from_closed (s : Z) (i : nat) (l : list Faq.FaqEntry) :
  (forall k, (k < List.length l)%nat -> Faq.is_open s (i + k) = false) ->
  Faq.answers_from s i l = [].
Proof.
  revert i. induction l as [ | x l IH]; intros i H; [reflexivity|].
  cbn [Faq.answers_from].
  pose proof (H 0%nat ltac:(simpl; lia)) as H0.
  rewrite Nat.add_0_r in H0. rewrite H0. simpl. apply IH.
  intros k Hk. replace (S i + k)%nat with (i + S k)%nat by lia.
  apply H. simpl. lia.
Qed.

Lemma answers_from_open (s : Z) (i k : nat) (l : list Faq.FaqEntry) (x : Faq.FaqEntry) :
  nth_error l k = Some x -> Faq.is_open s (i + k) = true ->
  Faq.answers_from s i l = [Faq.a x].
Proof.
  revert i k. induction l as [ | y l IH]; intros i k Hn Ho.
  - destruct k; discriminate.
  - cbn [Faq.answers_from]. unfold Faq.is_open in Ho.
    apply Z.eqb_eq in Ho. destruct k as [ | k].
    + injection Hn as ->. rewrite Nat.add_0_r in Ho.
      unfold Faq.is_open at 1. rewrite Ho, Z.eqb_refl.
      rewrite answers_from_closed; [reflexivity|].
      intros j _. unfold Faq.is_open. apply Z.eqb_neq. lia.
    + simpl in Hn. unfold Faq.is_open at 1.
      destruct (Z.eqb_spec (Z.of_nat i) s); [lia|]. simpl.
      apply (IH (S i) k); [exact Hn|].
      unfold Faq.is_open. apply Z.eqb_eq. lia.
Qed.

End Accordion.
Import Accordion.
(** X5.  Clicking the same entry [r] times from any state leaves it open
    exactly when it was open and [r] is even or it was closed and [r] is
    odd; after at least one click on it every other entry is closed. *)
Theorem faq_clicks_parity (s : Z) (i r : nat) :
  Faq.is_open (Faq.clicks s (repeat i r)) i
  = xorb (Faq.is_open s i) (Nat.odd r) /\
  (forall j, j <> i -> (0 < r)%nat ->
             Faq.is_open (Faq.clicks s (repeat i r)) j = false).
Proof.
  split.
  - induction r as [ | r IH].
    + simpl. rewrite xorb_false_r. reflexivity.
    + rewrite repeat_snoc, clicks_snoc, is_open_click_same, IH.
      rewrite Nat.odd_succ, <- Nat.negb_odd.
      destruct (Faq.is_open s i), (Nat.odd r); reflexivity.
  - intros j Hj Hr. destruct r as [ | r]; [lia|].
    rewrite repeat_snoc, clicks_snoc. apply is_open_click_other, Hj.
Qed.

Lemma faq_clicks_parity_witness :
  Faq.is_open (Faq.clicks Faq.faqOpen_0 (repeat 2%nat 3)) 0 = false.
Proof.
  apply (proj2 (faq_clicks_parity Faq.faqOpen_0 2 3) 0%nat); lia.
Defined.

(** X6.  In every state of the accordion at most one answer is rendered:
    the answer of the entry whose index is the state, and none when the
    state names no entry (as after closing the open one). *)
Theorem faq_one_answer (s : Z) :
  (List.length (Faq.visible_answers s) <= 1)%nat /\
  (forall i x, nth_error Faq.FAQ i = Some x -> Faq.is_open s i = true ->
               Faq.visible_answers s = [Faq.a x]) /\
  ((forall i, (i < List.length Faq.FAQ)%nat -> Faq.is_open s i = false) ->
   Faq.visible_answers s = []).
Proof.
  assert (Hopen : forall i x, nth_error Faq.FAQ i = Some x ->
                              Faq.is_open s i = true ->
                              Faq.visible_answers s = [Faq.a x]).
  { intros i x Hn Ho. apply (answers_from_open s 0 i); assumption. }
  assert (Hclosed : (forall i, (i < List.length Faq.FAQ)%nat ->
                               Faq.is_open s i = false) ->
                    Faq.visible_answers s = []).
  { intros H. apply answers_from_closed. exact H. }
  split; [|split; assumption].
  destruct (existsb (Faq.is_open s) (seq 0 (List.length Faq.FAQ))) eqn:E.
  - apply existsb_exists in E. destruct E as (i & Hi & Ho).
    apply in_seq in Hi.
    destruct (nth_error Faq.FAQ i) as [x | ] eqn:Hn.
    + rewrite (Hopen i x Hn Ho). simpl. lia.
    + apply nth_error_None in Hn. lia.
  - rewrite Hclosed; [simpl; lia|].
    intros i Hi. destruct (Faq.is_open s i) eqn:Ho; [|reflexivity].
    assert (existsb (Faq.is_open s) (seq 0 (List.length Faq.FAQ)) = true).
    { apply existsb_exists. exists i. split; [apply in_seq; lia | exact Ho]. }
    congruence.
Qed.

Lemma faq_one_answer_witness :
  Faq.visible_answers (Faq.clicks Faq.faqOpen_0 [0%nat]) = [].
Proof.
  apply (faq_one_answer (Faq.clicks Faq.faqOpen_0 [0%nat])).
  intros i Hi. simpl in Hi.
  destruct i as [ | [ | [ | [ | i]]]]; try reflexivity; lia.
Defined.

(** ** [round] on whole numbers *)

Module Whole.

(** The mantissa of a non-zero integer below [2^53] has full precision. *)
Lemma of_Z_digits (n : Z) :
  n <> 0 -> Z.abs n < 2 ^ 53 ->
  exists m e,
    JS.of_Z n = S754_finite (n <? 0) m e /\
    digits m = 53 /\ -52 <= e <= 0 /\ Zpos m = Z.abs n * 2 ^ (- e).
Proof.
  intros Hn Hlt.
  destruct (of_Z_finite n Hn Hlt) as (m & e & Hof & Hb & He & Hm).
  exists m, e. split; [exact Hof|].
  destruct (bounded_digits m e Hb) as (Hhi & Hlo & Hmin).
  assert (He52 : -52 <= e).
  { destruct (Z.le_gt_cases (-52) e) as [H | H]; [exact H|]. exfalso.
    assert (H53 : 2 ^ 53 <= 2 ^ (- e)) by (apply Z.pow_le_mono_r; lia).
    assert (2 ^ (- e) <= Z.abs n * 2 ^ (- e)); [|lia].
    rewrite <- (Z.mul_1_l (2 ^ (- e))) at 1.
    apply Z.mul_le_mono_nonneg_r; lia. }
  split; [|split; [lia | exact Hm]].
  apply digits_unique. split; [apply Hlo; lia | exact Hhi].
Qed.

Lemma binary_round_aux_of_Z (M : positive) (E n : Z) :
  E <= 0 -> n <> 0 -> Z.abs n < 2 ^ 53 ->
  Zpos M = Z.abs n * 2 ^ (- E) ->
  E <= fexp64 (digits M + E) ->
  binary_round_aux JS.prec JS.emax (n <? 0) (Zpos M) E loc_Exact = JS.of_Z n.
Proof.
  intros HE Hn Hlt HM Hf.
  rewrite <- (binary_round_of_Z M E n HE Hn Hlt HM).
  unfold binary_round.
  change (Zpos (digits2_pos M)) with (digits M). rewrite fexp_eq.
  rewrite shl_align_id by exact Hf. reflexivity.
Qed.

Lemma ltb_0_mul (a b : Z) :
  a <> 0 -> b <> 0 -> xorb (a <? 0) (b <? 0) = (a * b <? 0).
Proof. destruct a, b; intros; try reflexivity; congruence. Qed.

Lemma abs_factor_bound (a b : Z) :
  a <> 0 -> b <> 0 -> Z.abs (a * b) < 2 ^ 53 ->
  Z.abs a < 2 ^ 53 /\ Z.abs b < 2 ^ 53.
Proof. intros Ha Hb H. rewrite Z.abs_mul in H. nia. Qed.

(** The product of two integers is exact as long as it stays below
    [2^53]. *)
Lemma mul_of_Z (a b : Z) :
  a <> 0 -> b <> 0 -> Z.abs (a * b) < 2 ^ 53 ->
  JS.mul (JS.of_Z a) (JS.of_Z b) = JS.of_Z (a * b).
Proof.
  intros Ha Hb Hab. destruct (abs_factor_bound a b Ha Hb Hab) as [Hla Hlb].
  destruct (of_Z_digits a Ha Hla) as (ma & ea & Hfa & Hda & Hea & Hma).
  destruct (of_Z_digits b Hb Hlb) as (mb & eb & Hfb & Hdb & Heb & Hmb).
  rewrite Hfa, Hfb. unfold JS.mul, SFmul. rewrite ltb_0_mul by assumption.
  apply binary_round_aux_of_Z; try lia.
  - rewrite Pos2Z.inj_mul, Hma, Hmb, Z.abs_mul.
    replace (- (ea + eb)) with (- ea + - eb) by lia.
    rewrite Z.pow_add_r by lia. ring.
  - pose proof (digits_mul_lower ma mb). unfold fexp64. lia.
Qed.

(** The quotient of a product by one of its factors is exact. *)
Lemma div_of_Z (a b : Z) :
  a <> 0 -> b <> 0 -> Z.abs (a * b) < 2 ^ 53 ->
  JS.div (JS.of_Z (a * b)) (JS.of_Z b) = JS.of_Z a.
Proof.
  intros Ha Hb Hab. destruct (abs_factor_bound a b Ha Hb Hab) as [Hla Hlb].
  assert (Hn : a * b <> 0) by nia.
  destruct (of_Z_digits (a * b) Hn Hab) as (m1 & e1 & Hf1 & Hd1 & He1 & Hm1).
  destruct (of_Z_digits b Hb Hlb) as (m2 & e2 & Hf2 & Hd2 & He2 & Hm2).
  rewrite Hf1, Hf2. unfold JS.div, SFdiv, SFdiv_core_binary.
  cbn [Zdigits2]. fold (digits m1) (digits m2). rewrite fexp_eq, Hd1, Hd2.
  replace (Z.min (fexp64 (53 + e1 - (53 + e2))) (e1 - e2))
    with (e1 - e2 - 53) by (unfold fexp64; lia).
  replace (e1 - e2 - (e1 - e2 - 53)) with 53 by lia.
  rewrite Z.shiftl_mul_pow2 by lia.
  remember (Z.abs a * 2 ^ (53 - e1 + e2)) as q eqn:Hq.
  assert (Hprod : Zpos m1 * 2 ^ 53 = q * Zpos m2 + 0).
  { rewrite Hq, Hm1, Hm2, Z.abs_mul, Z.add_0_r.
    replace (53 - e1 + e2) with (- e1 + 53 - - e2) by lia.
    rewrite Z.pow_sub_r by lia.
    rewrite Z.pow_add_r by lia.
    pow2_pos (- e2) H2. pow2_pos (- e1) H1.
    assert (Hdiv : (2 ^ (- e1) * 2 ^ 53) mod 2 ^ (- e2) = 0).
    { replace 53 with (53 - - e2 + - e2) by lia.
      rewrite (Z.pow_add_r 2 (53 - - e2)) by lia.
      rewrite Z.mul_assoc. apply Z.mod_mul. lia. }
    apply Z.div_exact in Hdiv; [|lia].
    remember ((2 ^ (- e1) * 2 ^ 53) / 2 ^ (- e2)) as t eqn:Ht.
    nia. }
  assert (Hqpos : 0 < q).
  { rewrite Hq. apply Z.mul_pos_pos; [lia | apply Z.pow_pos_nonneg; lia]. }
  assert (Hdiv : Z.div_eucl (Zpos m1 * 2 ^ 53) (Zpos m2) = (q, 0)).
  { pose proof (Z.div_mod_unique (Zpos m2) (Zpos m1 * 2 ^ 53 / Zpos m2) q
                  ((Zpos m1 * 2 ^ 53) mod Zpos m2) 0) as Hu.
    destruct Hu as [Hu1 Hu2].
    - left. apply Z.mod_pos_bound. lia.
    - lia.
    - rewrite <- Z.div_mod by lia. lia.
    - unfold Z.div, Z.modulo in Hu1, Hu2.
      destruct (Z.div_eucl (Zpos m1 * 2 ^ 53) (Zpos m2)) as [q' r'].
      congruence. }
  rewrite Hdiv.
  destruct q as [ | p | p]; try lia.
  assert (Hloc : new_location (Zpos m2) 0 = loc_Exact).
  { unfold new_location, new_location_even, new_location_odd.
    destruct (Z.even (Zpos m2)); reflexivity. }
  rewrite Hloc.
  replace (xorb (a * b <? 0) (b <? 0)) with (a <? 0)
    by (destruct a, b; try reflexivity; congruence).
  apply binary_round_aux_of_Z; try lia.
  - rewrite Hq. f_equal. f_equal. lia.
  - (* the quotient has at least 53 digits *)
    pose proof (digits_bounds m1) as [H1lo _]. rewrite Hd1 in H1lo.
    pose proof (digits_bounds m2) as [_ H2hi]. rewrite Hd2 in H2hi.
    pose proof (digits_bounds p) as [_ Hphi].
    assert (Hp52 : 2 ^ 52 < 2 ^ digits p).
    { apply Z.le_lt_trans with (Zpos p); [|exact Hphi].
      apply (Z.mul_le_mono_pos_r _ _ (Zpos m2)); [lia|].
      assert (2 ^ 52 * 2 ^ 53 <= Zpos m1 * 2 ^ 53) by lia.
      assert (2 ^ 52 * Zpos m2 <= 2 ^ 52 * 2 ^ 53) by lia.
      lia. }
    apply Z.pow_lt_mono_r_iff in Hp52; [|lia|pose proof (digits_pos p); lia].
    unfold fexp64. lia.
Qed.

End Whole.
Import Whole.
(** X7.  [round(x, d)] returns a whole number [x] unchanged, as long as
    [|x| * 10^d] stays below [2^53]: the product and the quotient by
    [10^d] are then exact. *)
Theorem round_whole (n : Z) (d : nat) :
  Z.max 1 (Z.abs n) * 10 ^ Z.of_nat d < 2 ^ 53 ->
  round (JS.of_Z n) d = JS.of_Z n.
Proof.
  intros H. unfold round.
  assert (Hp : 0 < 10 ^ Z.of_nat d) by (apply Z.pow_pos_nonneg; lia).
  remember (10 ^ Z.of_nat d) as p eqn:Ep.
  destruct (Z.eq_dec n 0) as [-> | Hn].
  - destruct (of_Z_finite p) as (m & e & Hof & _); [lia | lia |].
    rewrite Hof. destruct (Z.ltb_spec p 0); [lia|]. reflexivity.
  - assert (Hnp : Z.abs (n * p) < 2 ^ 53) by (rewrite Z.abs_mul; nia).
    rewrite mul_of_Z by lia.
    rewrite Math_round_of_Z by exact Hnp.
    apply div_of_Z; lia.
Qed.

Lemma round_whole_witness : round (JS.of_Z 18) 2 = JS.of_Z 18.
Proof. apply (round_whole 18 2). vm_compute. reflexivity. Defined.

(** ** Signs *)

Module Signs.

(** [x < 0] is false: [x] is [NaN], a zero, or positive. *)
Lemma not_lt_0_cases (x : JS.number) :
  JS.lt x (JS.of_Z 0) = false <->
  match x with
  | S754_infinity s | S754_finite s _ _ => s = false
  | _ => True
  end.
Proof.
  destruct x as [s | [ | ] | | [ | ] m e]; simpl; split; intros H;
    try reflexivity; try discriminate; exact I.
Qed.

Lemma gt_0_cases (x : JS.number) :
  JS.gt x (JS.of_Z 0) = true <->
  match x with
  | S754_infinity s | S754_finite s _ _ => s = false
  | _ => False
  end.
Proof.
  destruct x as [s | [ | ] | | [ | ] m e]; simpl; split; intros H;
    try reflexivity; try discriminate; try contradiction.
Qed.

Lemma binary_round_aux_sign (s : bool) (m e : Z) (l : location) :
  binary_round_aux JS.prec JS.emax s m e l = S754_nan \/
  has_sign s (binary_round_aux JS.prec JS.emax s m e l).
Proof.
  unfold binary_round_aux.
  destruct (shr_fexp JS.prec JS.emax m e l) as [r1 e1].
  destruct (shr_fexp JS.prec JS.emax _ e1 loc_Exact) as [r2 e2].
  destruct (shr_m r2); [right; reflexivity | | left; reflexivity].
  destruct (e2 <=? JS.emax - JS.prec); right; reflexivity.
Qed.

Lemma has_sign_false_not_negative (x : JS.number) :
  x = S754_nan \/ has_sign false x -> JS.lt x (JS.of_Z 0) = false.
Proof.
  intros [-> | H]; [reflexivity|]. apply not_lt_0_cases.
  destruct x; try exact I; exact H.
Qed.

Lemma mul_not_negative (x y : JS.number) :
  JS.lt x (JS.of_Z 0) = false -> JS.lt y (JS.of_Z 0) = false ->
  JS.lt (JS.mul x y) (JS.of_Z 0) = false.
Proof.
  intros Hx Hy. apply not_lt_0_cases in Hx, Hy.
  destruct x as [sx | sx | | sx mx ex], y as [sy | sy | | sy my ey];
    subst; try reflexivity.
  apply has_sign_false_not_negative, binary_round_aux_sign.
Qed.

Lemma add_not_negative (x y : JS.number) :
  JS.lt x (JS.of_Z 0) = false -> JS.lt y (JS.of_Z 0) = false ->
  JS.lt (JS.add x y) (JS.of_Z 0) = false.
Proof.
  intros Hx Hy. apply not_lt_0_cases in Hx, Hy.
  destruct x as [sx | sx | | sx mx ex], y as [sy | sy | | sy my ey];
    subst; try reflexivity; try (destruct sx, sy; reflexivity).
  unfold JS.add, SFadd. cbn [cond_Zopp Z.add binary_normalize].
  apply has_sign_false_not_negative.
  unfold binary_round.
  destruct (shl_align _ _ _) as [mz ez]. apply binary_round_aux_sign.
Qed.

Lemma Math_round_not_negative (x : JS.number) :
  JS.lt x (JS.of_Z 0) = false -> JS.lt (JS.Math_round x) (JS.of_Z 0) = false.
Proof.
  intros Hx. destruct x as [s | s | | s m e]; try exact Hx.
  apply not_lt_0_cases in Hx. subst s.
  apply has_sign_false_not_lt, Math_round_has_sign.
Qed.

Lemma div_not_negative (x y : JS.number) :
  JS.lt x (JS.of_Z 0) = false -> JS.gt y (JS.of_Z 0) = true ->
  JS.lt (JS.div x y) (JS.of_Z 0) = false.
Proof.
  intros Hx Hy. apply not_lt_0_cases in Hx. apply gt_0_cases in Hy.
  destruct x as [sx | sx | | sx mx ex], y as [sy | sy | | sy my ey];
    subst; try reflexivity; try contradiction.
  apply has_sign_false_not_negative. right.
  apply (rounded_has_sign false), (div_finite_rounded false false).
Qed.

Lemma Math_max_0_not_negative (x : JS.number) :
  JS.lt (JS.Math_max (JS.of_Z 0) x) (JS.of_Z 0) = false.
Proof. destruct x as [[ | ] | [ | ] | | [ | ] m e]; reflexivity. Qed.

Lemma Math_max_pos_not_negative (c x : JS.number) :
  JS.gt c (JS.of_Z 0) = true ->
  JS.lt (JS.Math_max c x) (JS.of_Z 0) = false.
Proof.
  intros Hc. apply gt_0_cases in Hc.
  destruct c as [sc | sc | | sc mc ec]; try contradiction; subst sc;
    destruct x as [sx | [ | ] | | [ | ] mx ex]; try reflexivity;
    unfold JS.Math_max;
    match goal with
    | |- context [if ?t then _ else _] => destruct t
    end; reflexivity.
Qed.

Lemma pos_finite_not_negative (x : JS.number) :
  pos_finite x = true -> JS.lt x (JS.of_Z 0) = false.
Proof. destruct x as [ | | | [ | ] m e]; try discriminate; reflexivity. Qed.

Lemma raw_biogas_not_negative (i : EstimationInput) :
  JS.lt (raw_biogas i) (JS.of_Z 0) = false.
Proof.
  unfold raw_biogas. apply mul_not_negative.
  - apply Math_max_0_not_negative.
  - apply pos_finite_not_negative, factor_pos_finite.
Qed.

Lemma round_not_negative (x : JS.number) (d : nat) :
  (10 ^ Z.of_nat d < 2 ^ 53) ->
  JS.lt x (JS.of_Z 0) = false -> JS.lt (round x d) (JS.of_Z 0) = false.
Proof.
  intros Hd Hx. unfold round.
  assert (Hp : 0 < 10 ^ Z.of_nat d) by (apply Z.pow_pos_nonneg; lia).
  destruct (of_Z_finite (10 ^ Z.of_nat d)) as (m & e & Hof & _); try lia.
  destruct (Z.ltb_spec (10 ^ Z.of_nat d) 0); [lia|].
  apply div_not_negative.
  - apply Math_round_not_negative, mul_not_negative; [exact Hx|].
    rewrite Hof. reflexivity.
  - rewrite Hof. reflexivity.
Qed.

End Signs.
Import Signs.
(** X8.  With prices that are not negative the monthly saving returned
    is never negative, whatever the feedstock key and the daily mass
    (negative, infinite or not a number). *)
Theorem saving_never_negative (i : EstimationInput) :
  JS.lt (gas_price i) (JS.of_Z 0) = false ->
  JS.lt (electricity_price i) (JS.of_Z 0) = false ->
  JS.lt (monthly_saving (estimate i)) (JS.of_Z 0) = false.
Proof.
  intros Hg He. simpl monthly_saving. unfold raw_monthly_saving, raw_electric.
  pose proof (raw_biogas_not_negative i) as Hb.
  apply Math_round_not_negative.
  repeat first [ assumption | reflexivity | apply mul_not_negative
               | apply add_not_negative ].
Qed.

Lemma saving_never_negative_witness :
  JS.lt (monthly_saving (estimate input_cattle_600)) (JS.of_Z 0) = false.
Proof. apply (saving_never_negative input_cattle_600); reflexivity. Defined.

(** ** The result tiles *)

Module Tiles.

Lemma dash_not_suffixed (s t : string) :
  (3 < String.length t)%nat -> (s ++ t)%string <> "—"%string.
Proof.
  intros Ht H. apply (f_equal String.length) in H.
  rewrite length_append in H. simpl in H. lia.
Qed.

Lemma dash_not_oy (s : string) : (s ++ " oy")%string <> "—"%string.
Proof.
  destruct s as [ | c s]; [discriminate|].
  intros H. apply (f_equal String.length) in H.
  simpl in H. rewrite length_append in H. simpl in H. lia.
Qed.

Lemma raw_payback_not_negative (i : EstimationInput) :
  JS.lt (raw_payback i) (JS.of_Z 0) = false.
Proof.
  unfold raw_payback.
  destruct (JS.gt (raw_monthly_saving i) (JS.of_Z 0)) eqn:E; [|reflexivity].
  apply div_not_negative; [|exact E].
  unfold raw_capex. apply Math_max_pos_not_negative. reflexivity.
Qed.

Lemma truthy_not_negative_gt (p : JS.number) :
  truthy p = true -> JS.lt p (JS.of_Z 0) = false ->
  JS.gt p (JS.of_Z 0) = true.
Proof.
  destruct p as [s | [ | ] | | [ | ] m e]; intros Ht Hl;
    try reflexivity; discriminate.
Qed.

End Tiles.
Import Tiles.
(** X9.  The payback tile: a [null] payback is shown as a dash, and
    whenever the tile shows something else it is a payback greater than
    zero followed by [" oy"]; zero and [NaN] are shown as a dash too, and
    the payback is never negative. *)
Theorem payback_text_positive (show : JS.number -> string)
    (i : EstimationInput) :
  (payback_months (estimate i) = None ->
   payback_text show (estimate i) = "—"%string) /\
  (payback_text show (estimate i) <> "—"%string ->
   exists p, payback_months (estimate i) = Some p /\
             JS.gt p (JS.of_Z 0) = true /\
             payback_text show (estimate i) = (show p ++ " oy")%string).
Proof.
  unfold payback_text. split.
  - intros ->. reflexivity.
  - destruct (payback_months (estimate i)) as [p | ] eqn:Ep; [|congruence].
    destruct (truthy p) eqn:Et; [|congruence].
    intros _. exists p. repeat split.
    apply truthy_not_negative_gt; [exact Et|].
    simpl payback_months in Ep.
    destruct (JS.is_Infinity (raw_payback i)); [discriminate|].
    injection Ep as <-.
    apply round_not_negative; [reflexivity|].
    apply raw_payback_not_negative.
Qed.

Lemma payback_text_positive_witness :
  payback_text (fun _ => "14.8"%string) (estimate input_zero_mass)
  = "—"%string.
Proof.
  apply (payback_text_positive (fun _ => "14.8"%string) input_zero_mass).
  reflexivity.
Defined.

(** X10.  The capex tile: for a daily mass that is a number the tile
    shows a dash only when the capex returned is [Infinity]; otherwise it
    shows the formatted amount followed by [" so‘m"]. *)
Theorem capex_tile (format : JS.number -> string) (i : EstimationInput) :
  JS.valid (kgPerDay i) = true -> JS.is_NaN (kgPerDay i) = false ->
  let c := capex (estimate i) in
  (moneyUZS format (Some c) = "—"%string <-> c = JS.Infinity) /\
  (c <> JS.Infinity ->
   moneyUZS format (Some c) = (format c ++ " so‘m")%string).
Proof.
  intros Hv Hn. cbv zeta.
  pose proof (capex_floor i Hv Hn) as Hfloor.
  assert (Hc : JS.is_finite (capex (estimate i)) = false <->
               capex (estimate i) = JS.Infinity).
  { destruct (capex (estimate i)) as [s | [ | ] | | [ | ] m e];
      simpl in *; split; intros H; try reflexivity; discriminate. }
  unfold moneyUZS.
  destruct (JS.is_finite (capex (estimate i))) eqn:E.
  - split.
    + split; intros H.
      * exfalso. revert H. apply dash_not_suffixed. simpl. lia.
      * apply Hc in H. discriminate.
    + reflexivity.
  - split.
    + split; intros _; [apply Hc|]; reflexivity.
    + intros H. exfalso. apply H, Hc. reflexivity.
Qed.

Lemma capex_tile_witness :
  moneyUZS (fun _ => "12 000 000"%string)
           (Some (capex (estimate input_zero_mass)))
  = "12 000 000 so‘m"%string.
Proof.
  apply (capex_tile (fun _ => "12 000 000"%string) input_zero_mass);
    try reflexivity.
  vm_compute. discriminate.
Defined.

(** ** More on the chart *)

Module ChartMore.

Lemma binary_normalize_not_NaN (n e : Z) (s : bool) :
  JS.is_NaN (binary_normalize JS.prec JS.emax n e s) = false.
Proof.
  destruct n as [ | p | p]; simpl binary_normalize; [reflexivity | | ].
  - apply (rounded_not_NaN false), binary_round_rounded.
  - apply (rounded_not_NaN true), binary_round_rounded.
Qed.

Lemma add_finite_not_NaN (x y : JS.number) :
  JS.is_NaN x = false -> JS.is_finite y = true ->
  JS.is_NaN (JS.add x y) = false.
Proof.
  intros Hx Hy.
  destruct x as [sx | sx | | sx mx ex], y as [sy | sy | | sy my ey];
    try discriminate; try reflexivity; try (destruct sx, sy; reflexivity).
  apply binary_normalize_not_NaN.
Qed.

Lemma Math_round_not_NaN (x : JS.number) :
  JS.is_NaN x = false -> JS.is_NaN (JS.Math_round x) = false.
Proof.
  intros Hx. destruct x as [s | s | | s m e]; try exact Hx.
  unfold JS.Math_round. destruct (0 <=? e); [reflexivity|].
  apply binary_normalize_not_NaN.
Qed.

Lemma cashflow_not_NaN (n i : nat) (c m : JS.number) :
  JS.is_NaN c = false -> JS.is_finite m = true ->
  Forall (fun p => JS.is_NaN (month p) = false /\ JS.is_NaN (cum p) = false)
         (cashflow n i c m).
Proof.
  revert i c. induction n as [ | n IH]; intros i c Hc Hm; cbn [cashflow].
  - constructor.
  - pose proof (add_finite_not_NaN c m Hc Hm) as Hs.
    constructor; [split | apply IH; assumption]; cbn [month cum].
    + apply add_finite_not_NaN; [apply binary_normalize_not_NaN | reflexivity].
    + apply Math_round_not_NaN, Hs.
Qed.

Lemma or_zero_finite (x : JS.number) :
  is_infinite x = false -> JS.is_finite (JS.or_zero x) = true.
Proof. destruct x; try reflexivity; discriminate. Qed.

Lemma le_0_of_Z (n : Z) :
  Z.abs n < 2 ^ 53 -> (JS.le (JS.of_Z 0) (JS.of_Z n) = true <-> 0 <= n).
Proof.
  intros Hn. destruct (Z.eq_dec n 0) as [-> | Hn0].
  - split; [lia | reflexivity].
  - destruct (of_Z_finite n Hn0 Hn) as (m & e & Hof & _). rewrite Hof.
    destruct (Z.ltb_spec n 0); simpl; split; intros; try lia;
      try reflexivity; discriminate.
Qed.

Lemma raw_monthly_saving_nonpositive (i : EstimationInput) :
  JS.le (kgPerDay i) (JS.of_Z 0) = true ->
  JS.is_finite (gas_price i) = true ->
  JS.is_finite (electricity_price i) = true ->
  exists s, raw_monthly_saving i = S754_zero s.
Proof.
  intros Hle Hg He. unfold raw_monthly_saving, raw_electric.
  rewrite (raw_biogas_nonpositive i Hle).
  change (JS.mul JS.pzero (JS.of_Z 2)) with JS.pzero.
  destruct (mul_pzero_finite _ Hg) as [sg ->].
  destruct (mul_pzero_finite _ He) as [se ->].
  destruct sg, se; eexists; reflexivity.
Qed.

End ChartMore.
Import ChartMore.
(** X11.  Thanks to [|| 0] no point of the chart is [NaN] as soon as
    capex and monthly saving are not infinite, even when they are [NaN]
    themselves. *)
Theorem chart_never_NaN (capex0 monthly0 : JS.number) :
  is_infinite capex0 = false -> is_infinite monthly0 = false ->
  Forall (fun p => JS.is_NaN (month p) = false /\ JS.is_NaN (cum p) = false)
         (projector capex0 monthly0).
Proof.
  intros Hc Hm. unfold projector. apply cashflow_not_NaN.
  - apply or_zero_finite in Hc. destruct (JS.or_zero capex0); try discriminate;
      reflexivity.
  - apply or_zero_finite, Hm.
Qed.

Lemma chart_never_NaN_witness :
  Forall (fun p => JS.is_NaN (month p) = false /\ JS.is_NaN (cum p) = false)
         (chartData (estimate input_NaN_mass)).
Proof.
  apply (chart_never_NaN (capex (estimate input_NaN_mass))
           (monthly_saving (estimate input_NaN_mass))); reflexivity.
Defined.

(** X12.  For a daily mass [<= 0] and finite prices the capex is the floor
    12 000 000 and the chart is flat: each of its twelve points carries
    -12 000 000. *)
Theorem nonpositive_mass_flat_chart (i : EstimationInput) :
  JS.le (kgPerDay i) (JS.of_Z 0) = true ->
  JS.is_finite (gas_price i) = true ->
  JS.is_finite (electricity_price i) = true ->
  capex (estimate i) = JS.of_Z 12000000 /\
  List.length (chartData (estimate i)) = 12%nat /\
  (forall p, In p (chartData (estimate i)) -> cum p = JS.of_Z (-12000000)).
Proof.
  intros Hle Hg He.
  assert (Hcap : capex (estimate i) = JS.of_Z 12000000).
  { simpl capex. unfold raw_capex. rewrite (raw_biogas_nonpositive i Hle).
    vm_compute. reflexivity. }
  destruct (raw_monthly_saving_nonpositive i Hle Hg He) as [s Hs].
  assert (Hchart : chartData (estimate i) = exact_cashflow 12000000 0).
  { unfold chartData. rewrite Hcap. apply projector_exact.
    - apply of_Z_valid.
    - simpl monthly_saving. rewrite Hs. reflexivity.
    - apply to_Z_of_Z. reflexivity.
    - simpl monthly_saving. rewrite Hs. reflexivity.
    - reflexivity. }
  split; [exact Hcap|]. rewrite Hchart. split; [reflexivity|].
  intros p Hp. unfold exact_cashflow in Hp. apply in_map_iff in Hp.
  destruct Hp as (k & <- & _). cbn [cum]. f_equal. lia.
Qed.

Lemma nonpositive_mass_flat_chart_witness :
  capex (estimate input_zero_mass) = JS.of_Z 12000000.
Proof.
  destruct (nonpositive_mass_flat_chart input_zero_mass) as [H _];
    [reflexivity | reflexivity | reflexivity | exact H].
Defined.

(** X13.  Break-even on the chart: for whole numbers [a] (capex) and [b]
    (monthly saving) with [|a| + 12 |b| < 2^53], the point of month [k]
    is [>= 0] exactly when [k * b] has reached [a]. *)
Theorem chart_break_even (capex0 monthly0 : JS.number) (a b : Z) (k : nat)
    (p : CashflowPoint) :
  JS.valid capex0 = true -> JS.valid monthly0 = true ->
  JS.to_Z capex0 = Some a -> JS.to_Z monthly0 = Some b ->
  Z.abs a + 12 * Z.abs b < 2 ^ 53 ->
  (1 <= k <= 12)%nat ->
  nth_error (projector capex0 monthly0) (k - 1) = Some p ->
  (JS.le (JS.of_Z 0) (cum p) = true <-> a <= Z.of_nat k * b).
Proof.
  intros Hvc Hvm Ha Hb Hab Hk Hp.
  rewrite (projector_exact capex0 monthly0 a b) in Hp by assumption.
  rewrite exact_cashflow_nth in Hp by assumption.
  injection Hp as <-. cbn [cum].
  rewrite le_0_of_Z; [lia|].
  assert (Z.abs (Z.of_nat k * b) <= 12 * Z.abs b).
  { rewrite Z.abs_mul. apply Z.mul_le_mono_nonneg_r; lia. }
  lia.
Qed.

Lemma chart_break_even_witness :
  JS.le (JS.of_Z 0) (JS.of_Z (- 4104000)) = true
  <-> 21600000 <= Z.of_nat 12 * 1458000.
Proof.
  apply (chart_break_even (JS.of_Z 21600000) (JS.of_Z 1458000)
           21600000 1458000 12
           (mkPoint (JS.of_Z 12) (JS.of_Z (- 4104000))));
    try (vm_compute; reflexivity); lia.
Defined.
